(** * BLE stepper-motor session layer: framing, command protocol, broadcast

    A shallow embedding of the session-layer logic of the repository

    - [step-motor-control/v3/ble_common.py]: [BLEStepperClient]
      ([send_command], [_validate_command], [_notification_handler]),
      [MotorCommands] and [extract_angle_from_message];
    - [test/wifi_communication_test/pc_tcp_server.py]: [ArduinoTCPServer]
      ([send_to_all] and the clean-up of [handle_client]).

    Python values are modelled as the interpreter has them: a [str] is a
    sequence of Unicode code points, a [bytes] object a sequence of octets,
    an exception an explicit [Raise] result.  The first part of the file
    holds the definitions, the second part the properties. *)

From Stdlib Require Import ZArith List Bool Lia.
From Stdlib.Strings Require Import String Ascii Byte.
From Stdlib Require Import DecimalString PrimFloat Uint63.
From Equations Require Import Equations.
Import ListNotations.

Local Open Scope Z_scope.
Local Open Scope list_scope.

(* ===================================================================== *)
(** * Part I: definitions                                                 *)
(* ===================================================================== *)

(** ** Python values *)

Module Py.

(** A code point, [0 .. 0x10FFFF]. *)
Definition codepoint := Z.

(** [str]: an immutable sequence of code points. *)
Definition str := list codepoint.

(** [bytes] / [bytearray]: a sequence of octets. *)
Definition bytes := list byte.

Definition octet (b : byte) : Z := Z.of_N (Byte.to_N b).

(** A string literal of the source whose characters are all below U+0100. *)
Definition lit (s : string) : str :=
  List.map (fun a => Z.of_N (N_of_ascii a)) (list_ascii_of_string s).

(** Exception classes that occur in the modelled code.  [KeyboardInterrupt]
    stands for the classes that derive from [BaseException] only, which an
    [except Exception] clause does not catch. *)
Inductive exn : Type :=
| ValueError
| IndexError
| UnicodeDecodeError
| UnicodeEncodeError
| RuntimeError
| KeyboardInterrupt.

Definition isinstance_Exception (e : exn) : bool :=
  match e with
  | KeyboardInterrupt => false
  | _ => true
  end.

Inductive result (A : Type) : Type :=
| Ok (a : A)
| Raise (e : exn).
Arguments Ok {A} a.
Arguments Raise {A} e.

Definition str_eqb (s t : str) : bool :=
  (Nat.eqb (List.length s) (List.length t))
  && forallb (fun p => Z.eqb (fst p) (snd p)) (combine s t).

(** [x in xs] for a list of strings. *)
Definition list_contains (x : str) (xs : list str) : bool :=
  existsb (str_eqb x) xs.

(** *** [str.strip()] *)

(** [Py_UNICODE_ISSPACE]: the code points [str.isspace] accepts. *)
Definition Py_UNICODE_ISSPACE (c : codepoint) : bool :=
  ((9 <=? c) && (c <=? 13))
  || ((28 <=? c) && (c <=? 32))
  || (c =? 133) || (c =? 160) || (c =? 5760)
  || ((8192 <=? c) && (c <=? 8202))
  || (c =? 8232) || (c =? 8233) || (c =? 8239) || (c =? 8287)
  || (c =? 12288).

Fixpoint lstrip (s : str) : str :=
  match s with
  | [] => []
  | c :: s' => if Py_UNICODE_ISSPACE c then lstrip s' else s
  end.

Definition rstrip (s : str) : str := rev (lstrip (rev s)).

Definition strip (s : str) : str := rstrip (lstrip s).

(** *** What the interpreter supplies *)

(** The parts of the runtime that are tables or floating-point routines:
    the Unicode lower-case mapping of the code points above U+007F, the
    final-sigma test of [str.lower], [repr] of a float and [float] of a
    string ([None] when it raises [ValueError]). *)
Class Runtime : Type := {
  unicode_lower_full : codepoint -> list codepoint;
  final_sigma : str -> nat -> bool;
  float_repr : float -> str;
  float_of_str : str -> option float
}.

(** The value of a string of ASCII digits. *)
Fixpoint digits_value (acc : Z) (s : str) : option Z :=
  match s with
  | [] => Some acc
  | c :: s' =>
      if (48 <=? c) && (c <=? 57)
      then digits_value (10 * acc + (c - 48)) s'
      else None
  end.

(** The text before and after the first full stop, if there is one. *)
Fixpoint at_point (s : str) : str * option str :=
  match s with
  | [] => ([], None)
  | c :: s' =>
      if c =? 46 then ([], Some s')
      else let (whole, frac) := at_point s' in (c :: whole, frac)
  end.

(** A reader of the plain decimals [d..d] and [d..d.d..d]: the quotient of
    two integers that binary64 holds exactly is rounded once, as [float]
    of the string is.  It rejects every other string, also those that
    [float] accepts (signs, exponents, [inf], [nan]). *)
Definition plain_decimal (s : str) : option float :=
  match at_point s with
  | ([], _) => None
  | (whole, None) =>
      option_map (fun m => PrimFloat.of_uint63 (Uint63.of_Z m))
                 (digits_value 0 whole)
  | (_, Some []) => None
  | (whole, Some frac) =>
      option_map
        (fun m => PrimFloat.div
                    (PrimFloat.of_uint63 (Uint63.of_Z m))
                    (PrimFloat.of_uint63
                       (Uint63.of_Z (10 ^ Z.of_nat (List.length frac)))))
        (digits_value 0 (whole ++ frac))
  end.

(** A runtime to run the definitions with: no case mapping above U+007F, a
    fixed [repr], and the reader of plain decimals for [float]. *)
Definition plain_runtime : Runtime := {|
  unicode_lower_full := fun c => [c];
  final_sigma := fun _ _ => false;
  float_repr := fun _ => [48; 46; 48];
  float_of_str := plain_decimal
|}.

(** *** [str.lower()] *)

Definition ascii_lower (c : codepoint) : codepoint :=
  if (65 <=? c) && (c <=? 90) then c + 32 else c.

Definition is_ascii (s : str) : bool := forallb (fun c => c <? 128) s.

Section Lower.
Context {rt : Runtime}.

Definition ToLowerFull (c : codepoint) : list codepoint :=
  if c <? 128 then [ascii_lower c] else unicode_lower_full c.

(** [lower_ucs4]: capital sigma depends on its context, every other code
    point on the table only. *)
Definition lower_ucs4 (s : str) (i : nat) (c : codepoint) : list codepoint :=
  if c =? 931
  then [if final_sigma s i then 962 else 963]
  else ToLowerFull c.

Fixpoint do_lower (s : str) (i : nat) (rest : str) : str :=
  match rest with
  | [] => []
  | c :: rest' => lower_ucs4 s i c ++ do_lower s (S i) rest'
  end.

(** An all-ASCII string takes the byte-wise path. *)
Definition lower (s : str) : str :=
  if is_ascii s then List.map ascii_lower s else do_lower s 0%nat s.
End Lower.

(** *** [str.index], [in], slices *)

(** [s.index(c)] for a one-character [c]; [None] is [ValueError], and
    [c in s] holds exactly when the index exists. *)
Fixpoint index (c : codepoint) (s : str) : option nat :=
  match s with
  | [] => None
  | d :: s' => if d =? c then Some 0%nat else option_map S (index c s')
  end.

Fixpoint starts_with (sep s : str) : bool :=
  match sep, s with
  | [], _ => true
  | _ :: _, [] => false
  | a :: sep', b :: s' => (a =? b) && starts_with sep' s'
  end.

(** [sep in s] for a substring [sep]. *)
Fixpoint contains (sep s : str) : bool :=
  starts_with sep s
  || match s with
     | [] => false
     | _ :: s' => contains sep s'
     end.

(** [s.split(sep)] for a non-empty [sep]: the pieces between the
    non-overlapping occurrences of [sep], scanning from the left.  [skip]
    counts the characters of an occurrence still to be passed over, [cur]
    is the piece being built. *)
Fixpoint split_go (sep : str) (skip : nat) (cur : str) (s : str) : list str :=
  match s with
  | [] => [cur]
  | c :: s' =>
      match skip with
      | S k => split_go sep k cur s'
      | O =>
          if starts_with sep s
          then cur :: split_go sep (Nat.pred (List.length sep)) [] s'
          else split_go sep 0%nat (cur ++ [c]) s'
      end
  end.

Definition split (sep s : str) : result (list str) :=
  match sep with
  | [] => Raise ValueError
  | _ :: _ => Ok (split_go sep 0%nat [] s)
  end.

(** [xs[0]] and [xs[-1]]. *)
Definition item_first {A} (xs : list A) : result A :=
  match xs with
  | [] => Raise IndexError
  | x :: _ => Ok x
  end.

Definition item_last {A} (xs : list A) : result A :=
  match xs with
  | [] => Raise IndexError
  | x :: xs' => Ok (List.last xs' x)
  end.

(** *** The UTF-8 codec *)

Definition byte_of_Z (z : Z) : byte :=
  match Byte.of_N (Z.to_N z) with
  | Some b => b
  | None => x00
  end.

(** [str.encode('utf-8')]: surrogates cannot be encoded. *)
Definition utf8_encode_char (c : codepoint) : result bytes :=
  if c <? 128 then Ok [byte_of_Z c]
  else if c <? 2048 then
    Ok [byte_of_Z (192 + Z.shiftr c 6); byte_of_Z (128 + Z.land c 63)]
  else if (55296 <=? c) && (c <=? 57343) then Raise UnicodeEncodeError
  else if c <? 65536 then
    Ok [byte_of_Z (224 + Z.shiftr c 12);
        byte_of_Z (128 + Z.land (Z.shiftr c 6) 63);
        byte_of_Z (128 + Z.land c 63)]
  else
    Ok [byte_of_Z (240 + Z.shiftr c 18);
        byte_of_Z (128 + Z.land (Z.shiftr c 12) 63);
        byte_of_Z (128 + Z.land (Z.shiftr c 6) 63);
        byte_of_Z (128 + Z.land c 63)].

Fixpoint utf8_encode (s : str) : result bytes :=
  match s with
  | [] => Ok []
  | c :: s' =>
      match utf8_encode_char c with
      | Raise e => Raise e
      | Ok bs =>
          match utf8_encode s' with
          | Raise e => Raise e
          | Ok rest => Ok (bs ++ rest)
          end
      end
  end.

(** One step of the decoder at the head of the input. *)
Inductive utf8_step_result : Type :=
| Decoded (ch : codepoint) (n : nat)   (* a character of [n] bytes *)
| Invalid (n : nat)                    (* an error that spans [n] bytes *)
| Truncated.                           (* unexpected end of data *)

Definition IS_CONTINUATION_BYTE (ch : Z) : bool := (128 <=? ch) && (ch <? 192).

(** The case analysis of the interpreter's [utf8_decode] on the lead byte
    [b] and the bytes [rest] after it: overlong forms, surrogates and code
    points above U+10FFFF are errors on the lead byte. *)
Definition utf8_step (b : byte) (rest : bytes) : utf8_step_result :=
  let ch := octet b in
  if ch <? 128 then Decoded ch 1
  else if ch <? 224 then
    if ch <? 194 then Invalid 1
    else
      match rest with
      | [] => Truncated
      | b2 :: _ =>
          let ch2 := octet b2 in
          if negb (IS_CONTINUATION_BYTE ch2) then Invalid 1
          else Decoded (Z.shiftl ch 6 + ch2 - (Z.shiftl 192 6 + 128)) 2
      end
  else if ch <? 240 then
    match rest with
    | [] => Truncated
    | [b2] =>
        let ch2 := octet b2 in
        if negb (IS_CONTINUATION_BYTE ch2)
           || (if ch2 <? 160 then ch =? 224 else ch =? 237)
        then Invalid 1
        else Truncated
    | b2 :: b3 :: _ =>
        let ch2 := octet b2 in
        let ch3 := octet b3 in
        if negb (IS_CONTINUATION_BYTE ch2) then Invalid 1
        else if (ch =? 224) && (ch2 <? 160) then Invalid 1
        else if (ch =? 237) && (160 <=? ch2) then Invalid 1
        else if negb (IS_CONTINUATION_BYTE ch3) then Invalid 2
        else Decoded (Z.shiftl ch 12 + Z.shiftl ch2 6 + ch3
                      - (Z.shiftl 224 12 + Z.shiftl 128 6 + 128)) 3
    end
  else if ch <? 245 then
    match rest with
    | [] => Truncated
    | [b2] =>
        let ch2 := octet b2 in
        if negb (IS_CONTINUATION_BYTE ch2)
           || (if ch2 <? 144 then ch =? 240 else ch =? 244)
        then Invalid 1
        else Truncated
    | [b2; b3] =>
        let ch2 := octet b2 in
        let ch3 := octet b3 in
        if negb (IS_CONTINUATION_BYTE ch2)
           || (if ch2 <? 144 then ch =? 240 else ch =? 244)
        then Invalid 1
        else if negb (IS_CONTINUATION_BYTE ch3) then Invalid 2
        else Truncated
    | b2 :: b3 :: b4 :: _ =>
        let ch2 := octet b2 in
        let ch3 := octet b3 in
        let ch4 := octet b4 in
        if negb (IS_CONTINUATION_BYTE ch2) then Invalid 1
        else if (ch =? 240) && (ch2 <? 144) then Invalid 1
        else if (ch =? 244) && (144 <=? ch2) then Invalid 1
        else if negb (IS_CONTINUATION_BYTE ch3) then Invalid 2
        else if negb (IS_CONTINUATION_BYTE ch4) then Invalid 3
        else Decoded (Z.shiftl ch 18 + Z.shiftl ch2 12 + Z.shiftl ch3 6 + ch4
                      - (Z.shiftl 240 18 + Z.shiftl 128 12
                         + Z.shiftl 128 6 + 128)) 4
    end
  else Invalid 1.

(** The [errors] argument of [bytes.decode]. *)
Inductive errors : Type := Strict | Ignore | Replace.

Definition on_error (e : errors) (k : result str) : result str :=
  match e with
  | Strict => Raise UnicodeDecodeError
  | Ignore => k
  | Replace =>
      match k with
      | Ok t => Ok (65533 :: t)
      | Raise x => Raise x
      end
  end.

Definition emit (ch : codepoint) (k : result str) : result str :=
  match k with
  | Ok t => Ok (ch :: t)
  | Raise x => Raise x
  end.

(** [data.decode('utf-8', errors=e)].  A step that consumes [n] bytes
    continues [n - 1] bytes after the lead byte; a truncated sequence is an
    error that spans the rest of the input. *)
Equations utf8_decode (e : errors) (s : bytes) : result str
  by wf (List.length s) lt :=
  utf8_decode e [] := Ok [];
  utf8_decode e (b :: rest) with utf8_step b rest => {
    | Decoded ch n => emit ch (utf8_decode e (skipn (Nat.pred n) rest));
    | Invalid n => on_error e (utf8_decode e (skipn (Nat.pred n) rest));
    | Truncated => on_error e (Ok []) }.
Next Obligation. simpl. rewrite length_skipn. lia. Qed.
Next Obligation. simpl. rewrite length_skipn. lia. Qed.

(** *** [str(int)] *)

Definition int_str (z : Z) : str :=
  lit (NilZero.string_of_int (Z.to_int z)).

End Py.

Import Py.

(** ** [MotorCommands] and [BLEStepperClient._validate_command] *)

Module MotorCommands.
Section Commands.
Context {rt : Runtime}.

Definition absolute_move (angle : float) : str := lit "a" ++ float_repr angle.

Definition relative_move (angle : float) : str := lit "r" ++ float_repr angle.

Definition reset_position : str := lit "z".

Definition get_status : str := lit "s".

Definition toggle_power_saving : str := lit "p".

Definition set_speed (level : Z) : result str :=
  if (1 <=? level) && (level <=? 5)
  then Ok (lit "v" ++ int_str level)
  else Raise ValueError.

Definition get_help : str := lit "h".

(** A call of one of the helpers above. *)
Inductive call : Type :=
| AbsoluteMove (angle : float)
| RelativeMove (angle : float)
| ResetPosition
| GetStatus
| TogglePowerSaving
| SetSpeed (level : Z)
| GetHelp.

Definition encode (c : call) : result str :=
  match c with
  | AbsoluteMove angle => Ok (absolute_move angle)
  | RelativeMove angle => Ok (relative_move angle)
  | ResetPosition => Ok reset_position
  | GetStatus => Ok get_status
  | TogglePowerSaving => Ok toggle_power_saving
  | SetSpeed level => set_speed level
  | GetHelp => Ok get_help
  end.
End Commands.
End MotorCommands.

Section Validate.
Context {rt : Runtime}.

Definition valid_commands : list str :=
  [lit "a"; lit "r"; lit "z"; lit "s"; lit "p"; lit "v"; lit "h"].

(** [_validate_command]: the guard tests [command.strip()], the index is
    taken in [command.lower().strip()]. *)
Definition _validate_command (command : str) : result bool :=
  if (Nat.eqb (List.length command) 0)
     || (Nat.eqb (List.length (strip command)) 0)
  then Ok false
  else
    match nth_error (strip (lower command)) 0 with
    | None => Raise IndexError
    | Some c => let first_char := [c] in
                Ok (list_contains first_char valid_commands)
    end.
End Validate.

(** ** What the client does to the outside *)

Inductive log_message : Type :=
| EncodingErrorDetected               (* warning of the notification handler *)
| NotificationError (e : exn)         (* error of the notification handler *)
| DeviceNotConnected                  (* error of [send_command] *)
| InvalidCommand (command : str)      (* error of [send_command] *)
| CommandSendError (e : exn)          (* error of [send_command] *)
| CommandSent (command : str).        (* debug record of [send_command] *)

Inductive event : Type :=
| LogWarning (m : log_message)
| LogError (m : log_message)
| LogDebug (m : log_message)
| StatusReceived (message : str)      (* a call of [on_status_received] *)
| GattWrite (payload : bytes).        (* a call of [write_gatt_char] *)

Definition trace := list event.

(** The messages handed to the subscriber, in order. *)
Fixpoint messages_of (t : trace) : list str :=
  match t with
  | [] => []
  | StatusReceived m :: t' => m :: messages_of t'
  | _ :: t' => messages_of t'
  end.

(** The payloads handed to the transport, in order. *)
Fixpoint writes_of (t : trace) : list bytes :=
  match t with
  | [] => []
  | GattWrite p :: t' => p :: writes_of t'
  | _ :: t' => writes_of t'
  end.

(** ** [BLEStepperClient._notification_handler] *)

Module Framer.
Section Handler.
(** The subscriber [on_status_received]: it owns a state of type [Sub],
    and a call returns the new state and the exception it raised, if
    any. *)
Context {Sub : Type}.
Variable on_status_received : str -> Sub -> Sub * option exn.

Record state : Type := {
  message_buffer : str;
  subscriber : Sub
}.

(** How a block of statements ends: it runs to its end or an exception
    leaves it. *)
Record outcome : Type := {
  final : state;
  raised : option exn;
  events : trace
}.

Definition NL : codepoint := 10.

Definition before (ev : event) (o : outcome) : outcome :=
  {| final := final o; raised := raised o; events := ev :: events o |}.

Definition stop (buf : str) (sub : Sub) : outcome :=
  {| final := {| message_buffer := buf; subscriber := sub |};
     raised := None; events := [] |}.

(** The [while '\n' in self.message_buffer] loop: [index] finds the first
    line feed, and its absence ends the loop.  Each turn drops at least
    the line feed from the buffer. *)
Equations frame_loop (buf : str) (sub : Sub) : outcome
  by wf (List.length buf) lt :=
  frame_loop [] sub := stop [] sub;
  frame_loop (c :: tl) sub with index NL (c :: tl) => {
    | None => stop (c :: tl) sub;
    | Some line_end =>
        let message := strip (firstn line_end (c :: tl)) in
        let buf' := skipn (line_end + 1) (c :: tl) in
        match message with
        | [] => frame_loop buf' sub
        | _ :: _ =>
            match on_status_received message sub with
            | (sub', None) =>
                before (StatusReceived message) (frame_loop buf' sub')
            | (sub', Some e) =>
                {| final := {| message_buffer := buf'; subscriber := sub' |};
                   raised := Some e;
                   events := [StatusReceived message] |}
            end
        end }.
Next Obligation. rewrite length_skipn. cbn [List.length]. lia. Qed.
Next Obligation. rewrite length_skipn. cbn [List.length]. lia. Qed.

(** The inner [try]: strict decoding, and on [UnicodeDecodeError] the
    lossy one with a warning. *)
Definition decode_chunk (data : bytes) : result (str * trace) :=
  match utf8_decode Strict data with
  | Ok decoded_data => Ok (decoded_data, [])
  | Raise UnicodeDecodeError =>
      match utf8_decode Ignore data with
      | Ok decoded_data =>
          Ok (decoded_data, [LogWarning EncodingErrorDetected])
      | Raise e => Raise e
      end
  | Raise e => Raise e
  end.

(** The outer [except Exception]: log and clear the buffer.  An exception
    that is not an [Exception] leaves the handler. *)
Definition except_Exception (o : outcome) : outcome :=
  match raised o with
  | None => o
  | Some e =>
      if isinstance_Exception e
      then {| final := {| message_buffer := [];
                          subscriber := subscriber (final o) |};
              raised := None;
              events := events o ++ [LogError (NotificationError e)] |}
      else o
  end.

Definition _notification_handler (data : bytes) (self : state) : outcome :=
  except_Exception
    match decode_chunk data with
    | Raise e => {| final := self; raised := Some e; events := [] |}
    | Ok (decoded_data, warned) =>
        let o := frame_loop (message_buffer self ++ decoded_data)
                            (subscriber self) in
        {| final := final o; raised := raised o;
           events := warned ++ events o |}
    end.

(** Successive notifications; an exception that leaves the handler ends
    the run. *)
Fixpoint feed (chunks : list bytes) (self : state) : outcome :=
  match chunks with
  | [] => {| final := self; raised := None; events := [] |}
  | data :: chunks' =>
      let o := _notification_handler data self in
      match raised o with
      | Some _ => o
      | None =>
          let o' := feed chunks' (final o) in
          {| final := final o'; raised := raised o';
             events := events o ++ events o' |}
      end
  end.
End Handler.
End Framer.

(** ** [BLEStepperClient.send_command] *)

Module Client.
Section Send.
Context {rt : Runtime}.

(** The BLE link: [Link] is the state of the [BleakClient], and
    [write_gatt_char] on the command characteristic returns the new state
    or raises. *)
Context {Link : Type}.
Variable write_gatt_char : Link -> bytes -> Link * option exn.

Record state : Type := {
  client : option Link;
  is_connected : bool
}.

Definition send_command (command : str) (self : state)
  : result bool * state * trace :=
  match is_connected self, client self with
  | true, Some link =>
      match _validate_command command with
      | Raise e =>
          if isinstance_Exception e
          then (Ok false, self, [LogError (CommandSendError e)])
          else (Raise e, self, [])
      | Ok false => (Ok false, self, [LogError (InvalidCommand command)])
      | Ok true =>
          match utf8_encode command with
          | Raise e => (Ok false, self, [LogError (CommandSendError e)])
          | Ok payload =>
              match write_gatt_char link payload with
              | (link', None) =>
                  (Ok true,
                   {| client := Some link'; is_connected := true |},
                   [GattWrite payload; LogDebug (CommandSent command)])
              | (link', Some e) =>
                  let self' := {| client := Some link';
                                  is_connected := true |} in
                  if isinstance_Exception e
                  then (Ok false, self',
                        [GattWrite payload; LogError (CommandSendError e)])
                  else (Raise e, self', [GattWrite payload])
              end
          end
      end
  | _, _ => (Ok false, self, [LogError DeviceNotConnected])
  end.
End Send.
End Client.

(** ** [extract_angle_from_message] *)

Section Angle.
Context {rt : Runtime}.

Definition deg : str := lit "deg".
Definition degree_sign : str := [176].
Definition colon : str := lit ":".

(** The body of the loop for one [separator] that occurs in [message];
    [None] stands for the [ValueError] or [IndexError] that the function
    turns into [None]. *)
Definition angle_before (separator message : str) : option float :=
  match split separator message with
  | Raise _ => None
  | Ok pieces =>
      match item_first pieces with
      | Raise _ => None
      | Ok head =>
          match split colon head with
          | Raise _ => None
          | Ok fields =>
              match item_last fields with
              | Raise _ => None
              | Ok angle_str => float_of_str (strip angle_str)
              end
          end
      end
  end.

Fixpoint extract_angle_loop (separators : list str) (message : str)
  : option float :=
  match separators with
  | [] => None
  | separator :: separators' =>
      if contains separator message
      then angle_before separator message
      else extract_angle_loop separators' message
  end.

Definition extract_angle_from_message (message : str) : option float :=
  extract_angle_loop [deg; degree_sign] message.
End Angle.

(** ** [ArduinoTCPServer]: the client list and the broadcast *)

Module Server.

Definition socket := nat.
Definition thread := nat.
Definition address : Type := str * Z.

Definition address_eqb (a b : address) : bool :=
  str_eqb (fst a) (fst b) && (snd a =? snd b).

Definition entry : Type := socket * address * thread.

(** What a write to a socket raises when it fails; all are [Exception]s,
    so the [except Exception] of the broadcast catches them. *)
Inductive OSError : Type :=
| BrokenPipeError
| ConnectionResetError
| TimeoutError.

(** What the [try] of the broadcast catches: the encoding of the message
    or the write. *)
Inductive send_error : Type :=
| EncodeFailed (e : exn)
| WriteFailed (e : OSError).

Inductive action : Type :=
| PrintNoClients
| PrintSent (message : str) (a : address)
| PrintSendError (a : address) (e : send_error)
| SendAll (s : socket) (payload : bytes)    (* a write that succeeded *)
| Close (s : socket).

Record state : Type := {
  running : bool;
  clients : list entry
}.

Section Broadcast.
(** The network: [sendall s payload] is the error the write to socket [s]
    raises, if any. *)
Variable sendall : socket -> bytes -> option OSError.

(** One turn of the [for] loop with its [try]. *)
Definition send_one (message : str) (en : entry) : list action :=
  let '(client, addr, _) := en in
  match utf8_encode (message ++ [10]) with
  | Raise e => [PrintSendError addr (EncodeFailed e)]
  | Ok payload =>
      match sendall client payload with
      | None => [SendAll client payload; PrintSent message addr]
      | Some e => [PrintSendError addr (WriteFailed e)]
      end
  end.

Definition send_to_all (message : str) (self : state)
  : state * list action :=
  match clients self with
  | [] => (self, [PrintNoClients])
  | _ :: _ => (self, flat_map (send_one message) (clients self))
  end.
End Broadcast.

(** The [finally] block of [handle_client]. *)
Definition handle_client_finally (client_socket : socket)
  (client_address : address) (self : state) : state * list action :=
  ({| running := running self;
      clients := filter (fun en => negb (address_eqb (snd (fst en))
                                                     client_address))
                        (clients self) |},
   [Close client_socket]).

(** The sockets a list of actions wrote to. *)
Fixpoint receivers (acts : list action) : list socket :=
  match acts with
  | [] => []
  | SendAll s _ :: acts' => s :: receivers acts'
  | _ :: acts' => receivers acts'
  end.

End Server.

(** ** Vocabulary of the properties *)

(** *** The command protocol *)

Definition command_letter (c : codepoint) : bool :=
  list_contains [c] valid_commands.

(** The calls the protocol accepts: the speed level is within 1..5. *)
Definition well_formed (c : MotorCommands.call) : Prop :=
  match c with
  | MotorCommands.SetSpeed level => 1 <= level <= 5
  | _ => True
  end.

(** What the index of [_validate_command] needs from the lower-case
    table: a character that is not white space does not turn into white
    space only, nor into nothing.  (The Unicode mapping sends letters to
    letters and leaves every other code point alone.) *)
Definition lower_keeps_text {rt : Runtime} : Prop :=
  forall c, 128 <= c -> Py_UNICODE_ISSPACE c = false ->
            forallb Py_UNICODE_ISSPACE (unicode_lower_full c) = false.

(** *** Framing, at the level of the decoded text *)

(** The complete lines of a text (the pieces that end in a line feed,
    without it) and the fragment after the last line feed. *)
Fixpoint complete_lines (text : str) : list str * str :=
  match text with
  | [] => ([], [])
  | c :: text' =>
      let (ls, r) := complete_lines text' in
      if c =? 10 then ([] :: ls, r)
      else match ls with
           | [] => ([], c :: r)
           | l :: ls' => ((c :: l) :: ls', r)
           end
  end.

Definition nonempty (s : str) : bool :=
  match s with
  | [] => false
  | _ :: _ => true
  end.

(** The messages of a text: its complete lines, trimmed, without the ones
    that are empty after trimming. *)
Definition framed (text : str) : list str :=
  filter nonempty (List.map strip (fst (complete_lines text))).

(** What stays buffered: the fragment that no line feed ends yet. *)
Definition remainder (text : str) : str := snd (complete_lines text).

(** The text a chunk contributes to the buffer. *)
Definition chunk_text (data : bytes) : str :=
  match utf8_decode Ignore data with
  | Ok t => t
  | Raise _ => []
  end.

(** The chunk decodes strictly. *)
Definition valid_utf8 (data : bytes) : bool :=
  match utf8_decode Strict data with
  | Ok _ => true
  | Raise _ => false
  end.

(** The record a chunk that is not valid UTF-8 leaves in the log. *)
Definition warning_of (data : bytes) : trace :=
  if valid_utf8 data then [] else [LogWarning EncodingErrorDetected].

(** *** Subscribers *)

Section Subscribers.
Context {Sub : Type}.
Variable on_status_received : str -> Sub -> Sub * option exn.

(** Handing a list of messages to the subscriber, up to the first call
    that raises: the messages handed over, the subscriber afterwards, and
    the exception. *)
Fixpoint deliver (ms : list str) (sub : Sub) : list str * Sub * option exn :=
  match ms with
  | [] => ([], sub, None)
  | m :: ms' =>
      match on_status_received m sub with
      | (sub', None) =>
          let '(d, s, r) := deliver ms' sub' in (m :: d, s, r)
      | (sub', Some e) => ([m], sub', Some e)
      end
  end.

(** The subscriber returns from every call. *)
Definition quiet : Prop :=
  forall m sub, snd (on_status_received m sub) = None.

End Subscribers.

(** A client that has received nothing yet. *)
Definition fresh {Sub : Type} (sub : Sub) : Framer.state :=
  {| Framer.message_buffer := []; Framer.subscriber := sub |}.

(** A subscriber that returns, and one that raises on the message ["a"]. *)
Definition silent_subscriber (_ : str) (s : unit) : unit * option exn :=
  (s, None).

Definition failing_subscriber (m : str) (s : unit) : unit * option exn :=
  (s, if str_eqb m [97] then Some RuntimeError else None).

(** *** The claims that fail, as stated *)

(** The claim of chunk-boundary independence, for a subscriber, a list of
    chunks and a client: feeding the chunks one by one hands over the
    messages that feeding their concatenation in one call does. *)
Definition chunk_boundary_independent {Sub : Type}
  (on_status_received : str -> Sub -> Sub * option exn)
  (chunks : list bytes) (self : Framer.state) : Prop :=
  messages_of (Framer.events (Framer.feed on_status_received chunks self))
  = messages_of
      (Framer.events
         (Framer._notification_handler on_status_received
            (List.concat chunks) self)).

(** The policy the claim words: every invalid byte sequence is replaced by
    the substitute character U+FFFD. *)
Definition substituted_text (data : bytes) : str :=
  match utf8_decode Replace data with
  | Ok t => t
  | Raise _ => []
  end.

(** [drops_substitutes t r]: the text [t] is the text [r] without some of
    its substitute characters. *)
Inductive drops_substitutes : str -> str -> Prop :=
| ds_nil : drops_substitutes [] []
| ds_keep (c : codepoint) (t r : str) :
    drops_substitutes t r -> drops_substitutes (c :: t) (c :: r)
| ds_drop (t r : str) :
    drops_substitutes t r -> drops_substitutes t (65533 :: r).

Definition decodes_by_substitution {Sub : Type}
  (on_status_received : str -> Sub -> Sub * option exn)
  (data : bytes) (self : Framer.state) : Prop :=
  messages_of
    (Framer.events (Framer._notification_handler on_status_received data self))
  = framed (Framer.message_buffer self ++ substituted_text data).

(** The claim of isolation: whatever the subscriber does, every message of
    buffer plus chunk is handed over and the remainder stays buffered. *)
Definition isolates_subscriber_failure {Sub : Type}
  (on_status_received : str -> Sub -> Sub * option exn)
  (data : bytes) (self : Framer.state) : Prop :=
  let o := Framer._notification_handler on_status_received data self in
  let text := Framer.message_buffer self ++ chunk_text data in
  messages_of (Framer.events o) = framed text
  /\ Framer.message_buffer (Framer.final o) = remainder text.

(** The postcondition of one call of the framer: the call returns, it has
    handed over, in order, the trimmed content of every complete line of
    buffer plus chunk that is not empty after trimming, and the fragment
    that no line feed ends is buffered for the next call. *)
Definition extracts_every_line {Sub : Type}
  (on_status_received : str -> Sub -> Sub * option exn)
  (data : bytes) (self : Framer.state) : Prop :=
  let o := Framer._notification_handler on_status_received data self in
  let text := Framer.message_buffer self ++ chunk_text data in
  Framer.raised o = None
  /\ messages_of (Framer.events o) = framed text
  /\ Framer.message_buffer (Framer.final o) = remainder text.

(** The messages whose call returned, when a delivery has handed over [d]
    and ended with [r]: all of [d], but for its last message when the call
    for it raised. *)
Definition returned_calls (d : list str) (r : option exn) : list str :=
  match r with
  | None => d
  | Some _ => removelast d
  end.

(** Three peers, and a network on which the write to the second one
    fails. *)
Definition peer1 : Server.entry := (1%nat, (lit "10.0.0.1", 50001), 1%nat).
Definition peer2 : Server.entry := (2%nat, (lit "10.0.0.2", 50002), 2%nat).
Definition peer3 : Server.entry := (3%nat, (lit "10.0.0.3", 50003), 3%nat).

Definition three_peers : Server.state :=
  {| Server.running := true; Server.clients := [peer1; peer2; peer3] |}.

Definition second_fails (s : Server.socket) (_ : bytes)
  : option Server.OSError :=
  if Nat.eqb s 2 then Some Server.BrokenPipeError else None.

Definition all_succeed (s : Server.socket) (_ : bytes)
  : option Server.OSError := None.

(** The claim of removal: a peer whose write failed during a broadcast is
    no longer in the client list after it. *)
Definition failed_peer_removed
  (sendall : Server.socket -> bytes -> option Server.OSError)
  (message : str) (self : Server.state) : Prop :=
  forall en payload,
    In en (Server.clients self) ->
    utf8_encode (message ++ [10]) = Ok payload ->
    sendall (fst (fst en)) payload <> None ->
    ~ In en (Server.clients (fst (Server.send_to_all sendall message self))).

(** The write of a payload to the socket of an entry succeeds. *)
Definition write_succeeds
  (sendall : Server.socket -> bytes -> option Server.OSError)
  (payload : bytes) (en : Server.entry) : bool :=
  match sendall (fst (fst en)) payload with
  | None => true
  | Some _ => false
  end.

(** *** Angle extraction *)

(** The text of a line before the first occurrence of a marker. *)
Fixpoint text_before (marker s : str) : str :=
  match s with
  | [] => []
  | c :: s' => if starts_with marker s then [] else c :: text_before marker s'
  end.

(** The text after the last occurrence of a character, when it occurs. *)
Fixpoint after_last (c : codepoint) (s : str) : option str :=
  match s with
  | [] => None
  | d :: s' =>
      match after_last c s' with
      | Some t => Some t
      | None => if d =? c then Some s' else None
      end
  end.

(** The token the angle is read from: what precedes the marker, after the
    last colon if there is one, trimmed. *)
Definition angle_token (marker message : str) : str :=
  let head := text_before marker message in
  strip match after_last 58 head with
        | Some t => t
        | None => head
        end.

(** ** Further vocabulary *)

(** The warnings of a trace, in order. *)
Fixpoint warnings_of (t : trace) : list log_message :=
  match t with
  | [] => []
  | LogWarning m :: t' => m :: warnings_of t'
  | _ :: t' => warnings_of t'
  end.

(** A Unicode scalar value: a code point that is not a surrogate. *)
Definition scalar_value (c : codepoint) : bool :=
  (0 <=? c) && (c <=? 1114111) && negb ((55296 <=? c) && (c <=? 57343)).

(** A string of code points in the range of [str]. *)
Definition in_range (s : str) : bool :=
  forallb (fun c => (0 <=? c) && (c <=? 1114111)) s.

(** ** [BLEStepperClient]: scanning, connecting, disconnecting *)

Module Session.

(** A device as [BleakScanner.discover] reports it; the name may be
    missing. *)
Record BLEDevice : Type := {
  name : option str;
  address : str;
  rssi : Z
}.

Definition DEVICE_NAMES : list str := [lit "StepperMotor"; lit "Arduino"].

(** [device.name in BLEConfig.DEVICE_NAMES]. *)
Definition name_in_DEVICE_NAMES (d : BLEDevice) : bool :=
  match name d with
  | Some n => list_contains n DEVICE_NAMES
  | None => false
  end.

(** The dictionary [scan_devices] builds for a device. *)
Record device_info : Type := {
  info_name : str;
  info_address : str;
  info_rssi : Z;
  is_target : bool
}.

(** [device.name or 'Unknown']. *)
Definition name_or_Unknown (d : BLEDevice) : str :=
  match name d with
  | Some (c :: n) => c :: n
  | _ => lit "Unknown"
  end.

Definition info_of (d : BLEDevice) : device_info :=
  {| info_name := name_or_Unknown d;
     info_address := address d;
     info_rssi := rssi d;
     is_target := name_in_DEVICE_NAMES d |}.

(** [scan_devices]: the [except Exception] answers the empty list. *)
Definition scan_devices (discovered : result (list BLEDevice))
  : result (list device_info) :=
  match discovered with
  | Ok devices => Ok (List.map info_of devices)
  | Raise e => if isinstance_Exception e then Ok [] else Raise e
  end.

(** What a call of the BLE stack fails with: [asyncio.TimeoutError] or
    another exception. *)
Inductive link_failure : Type :=
| TimedOut
| Failed (e : exn).

(** The messages of [BLEConnectionError]. *)
Inductive BLEConnectionError : Type :=
| DeviceNotFound
| ConnectionTimeout
| ConnectionFailed (e : exn).

(** The calls made to the BLE stack. *)
Inductive call : Type :=
| Discover
| NewClient (addr : str)
| LinkConnect
| StartNotify
| LinkDisconnect.

Inductive connect_result : Type :=
| Connected                                (* returns [True] *)
| RaisedConnectionError (err : BLEConnectionError)
| RaisedOther (e : exn).

Section Stack.
(** The BLE stack: [Link] is the state of a [BleakClient]. *)
Context {Link : Type}.
Variable discover : result (list BLEDevice).
Variable new_client : str -> Link.
Variable link_connect : Link -> Link * option link_failure.
Variable start_notify : Link -> Link * option link_failure.
Variable link_disconnect : Link -> Link * option exn.

Record state : Type := {
  device : option BLEDevice;
  client : option Link;
  is_connected : bool
}.

(** [find_target_device]: the first discovered device whose name is in the
    list; an exception of the scan is not caught here. *)
Definition find_target_device (self : state) : result bool * state :=
  match discover with
  | Raise e => (Raise e, self)
  | Ok devices =>
      match find name_in_DEVICE_NAMES devices with
      | Some d =>
          (Ok true,
           {| device := Some d; client := client self;
              is_connected := is_connected self |})
      | None => (Ok false, self)
      end
  end.

(** The two [except] clauses of [connect]. *)
Definition connection_error (f : link_failure) : connect_result :=
  match f with
  | TimedOut => RaisedConnectionError ConnectionTimeout
  | Failed e =>
      if isinstance_Exception e
      then RaisedConnectionError (ConnectionFailed e)
      else RaisedOther e
  end.

(** The [try] of [connect], for the device [d]: the client object is stored
    before the connection is attempted, and [is_connected] is set after
    the notifications are enabled. *)
Definition connect_to (d : BLEDevice) (self : state)
  : connect_result * state * list call :=
  let link0 := new_client (address d) in
  match link_connect link0 with
  | (link1, Some f) =>
      (connection_error f,
       {| device := device self; client := Some link1;
          is_connected := is_connected self |},
       [NewClient (address d); LinkConnect])
  | (link1, None) =>
      match start_notify link1 with
      | (link2, Some f) =>
          (connection_error f,
           {| device := device self; client := Some link2;
              is_connected := is_connected self |},
           [NewClient (address d); LinkConnect; StartNotify])
      | (link2, None) =>
          (Connected,
           {| device := device self; client := Some link2;
              is_connected := true |},
           [NewClient (address d); LinkConnect; StartNotify])
      end
  end.

Definition connect (self : state) : connect_result * state * list call :=
  match device self with
  | Some d => connect_to d self
  | None =>
      match find_target_device self with
      | (Raise e, self') => (RaisedOther e, self', [Discover])
      | (Ok false, self') =>
          (RaisedConnectionError DeviceNotFound, self', [Discover])
      | (Ok true, self') =>
          match device self' with
          | Some d =>
              let '(r, self'', calls) := connect_to d self' in
              (r, self'', Discover :: calls)
          | None =>
              (* not reached: [find_target_device] answers [True] only
                 after it has stored the device; the attribute error would
                 be caught by the [except Exception] clause *)
              (RaisedConnectionError (ConnectionFailed RuntimeError),
               self', [Discover])
          end
      end
  end.

(** [disconnect]: the [finally] resets the client whatever the link does;
    an exception that is not an [Exception] leaves the function after
    it. *)
Definition disconnect (self : state) : option exn * state * list call :=
  match client self, is_connected self with
  | Some link, true =>
      let closed := {| device := device self; client := None;
                       is_connected := false |} in
      match link_disconnect link with
      | (_, None) => (None, closed, [LinkDisconnect])
      | (_, Some e) =>
          (if isinstance_Exception e then None else Some e,
           closed, [LinkDisconnect])
      end
  | _, _ => (None, self, [])
  end.

(** The part of the state that [send_command] reads. *)
Definition as_client (self : state) : Client.state :=
  {| Client.client := client self;
     Client.is_connected := is_connected self |}.
End Stack.
End Session.

(** A scan that reports three devices, and a BLE stack on which the
    connection times out, to run the definitions with. *)
Definition three_devices : list Session.BLEDevice :=
  [ {| Session.name := None;
       Session.address := lit "AA:01"; Session.rssi := -70 |};
    {| Session.name := Some (lit "arduino");
       Session.address := lit "AA:02"; Session.rssi := -40 |};
    {| Session.name := Some (lit "Arduino");
       Session.address := lit "AA:03"; Session.rssi := -55 |} ].

Definition link_ok (l : nat) : nat * option Session.link_failure :=
  (S l, None).

Definition link_times_out (l : nat) : nat * option Session.link_failure :=
  (S l, Some Session.TimedOut).

Definition idle : Session.state (Link := nat) :=
  {| Session.device := None; Session.client := None;
     Session.is_connected := false |}.

(** ** [format_angle] and the status handler of the command-line tool *)

Section FormatAngle.
(** [format(angle, '.1f')], a routine of the interpreter. *)
Variable float_format_1f : float -> str.

Definition format_angle (angle : float) : str :=
  float_format_1f angle ++ [176].
End FormatAngle.

(** The characters a float prints with in fixed-point form: digits, the
    point, the minus sign, and the letters of [inf] and [nan]. *)
Definition fixed_point_char (c : codepoint) : bool :=
  ((48 <=? c) && (c <=? 57)) || (c =? 46) || (c =? 45)
  || (c =? 105) || (c =? 110) || (c =? 102) || (c =? 97).

Module Monitor.
Section StatusHandler.
Context {rt : Runtime}.

(** Standard output and the clock: [Console] is their state, and [print]
    of the line made of the time stamp and the received message returns
    the new state and the exception it raised, if any (a closed or broken
    output, a text the output cannot encode). *)
Context {Console : Type}.
Variable print : str -> Console -> Console * option exn.

(** What the subscriber owns: [current_angle] and standard output. *)
Record state : Type := {
  current_angle : float;
  console : Console
}.

(** [StepperMotorCLI._status_handler]: it prints the message, and then
    stores the angle of a message that carries one.  An exception of
    [print] leaves the handler before the angle is looked at. *)
Definition _status_handler (message : str) (self : state)
  : state * option exn :=
  match print message (console self) with
  | (console', Some e) =>
      ({| current_angle := current_angle self; console := console' |},
       Some e)
  | (console', None) =>
      match extract_angle_from_message message with
      | Some angle =>
          ({| current_angle := angle; console := console' |}, None)
      | None =>
          ({| current_angle := current_angle self; console := console' |},
           None)
      end
  end.
End StatusHandler.
End Monitor.

(** A standard output that keeps the lines printed and is closed once it
    holds two of them: [print] on a closed file raises [ValueError]. *)
Definition print_two_lines (message : str) (lines : list str)
  : list str * option exn :=
  if (2 <=? List.length lines)%nat then (lines, Some ValueError)
  else (lines ++ [message], None).

(** The angle of the last message of a list that carries one. *)
Fixpoint last_angle {rt : Runtime} (ms : list str) : option float :=
  match ms with
  | [] => None
  | m :: ms' =>
      match last_angle ms' with
      | Some a => Some a
      | None => extract_angle_from_message m
      end
  end.

(** ** [ArduinoTCPServer]: accepting, serving, stopping, the operator *)

Module ServerOps.
Import Server.

(** [accept_connections], for one accepted connection: the entry is
    appended to the list. *)
Definition register (client_socket : socket) (client_address : address)
  (client_thread : thread) (self : state) : state :=
  {| running := running self;
     clients := clients self
                ++ [(client_socket, client_address, client_thread)] |}.

(** [stop]: every client socket is closed, errors of [close] are ignored,
    the list is emptied, and the listening socket, if any, is closed. *)
Definition stop (server_socket : option socket) (self : state)
  : state * list action :=
  ({| running := false; clients := [] |},
   List.map (fun en => Close (fst (fst en))) (clients self)
   ++ match server_socket with
      | Some s => [Close s]
      | None => []
      end).

(** What the loop of [handle_client] meets: the server has stopped, a
    chunk was received (empty when the peer closed), or [recv] raised. *)
Inductive recv_event : Type :=
| Stopped
| Recv (data : bytes)
| RecvError (e : OSError).

Inductive served : Type :=
| PrintFrom (a : address) (message : str)
| PrintHandlingError (a : address)
| CloseSocket (s : socket)
| PrintClosed (a : address).

(** The [while self.running] loop with its [try]: each chunk is decoded
    strictly and printed trimmed; [True] is returned when an exception
    ended the loop.  A run of the events ends as [Stopped] does. *)
Fixpoint serve (client_address : address) (events : list recv_event)
  : list served * bool :=
  match events with
  | [] => ([], false)
  | Stopped :: _ => ([], false)
  | RecvError _ :: _ => ([], true)
  | Recv [] :: _ => ([], false)
  | Recv data :: events' =>
      match utf8_decode Strict data with
      | Raise _ => ([], true)
      | Ok text =>
          let message := strip text in
          let (printed, failed) := serve client_address events' in
          (PrintFrom client_address message :: printed, failed)
      end
  end.

(** [handle_client]: the loop, the [except] and the [finally]. *)
Definition handle_client (client_socket : socket) (client_address : address)
  (events : list recv_event) (self : state) : state * list served :=
  let (printed, failed) := serve client_address events in
  (fst (handle_client_finally client_socket client_address self),
   printed
   ++ (if failed then [PrintHandlingError client_address] else [])
   ++ [CloseSocket client_socket; PrintClosed client_address]).

(** The chunks that [handle_client] prints: those before the first event
    that is not a non-empty chunk of valid UTF-8. *)
Fixpoint printable (events : list recv_event) : list bytes :=
  match events with
  | Recv (b :: data) :: events' =>
      if valid_utf8 (b :: data)
      then (b :: data) :: printable events'
      else []
  | _ => []
  end.

(** The messages a run printed. *)
Fixpoint printed_messages (acts : list served) : list str :=
  match acts with
  | [] => []
  | PrintFrom _ m :: acts' => m :: printed_messages acts'
  | _ :: acts' => printed_messages acts'
  end.

Section Operator.
Context {rt : Runtime}.
Variable sendall : socket -> bytes -> option OSError.

Inductive operator_action : Type :=
| Quit
| PrintClients (addresses : list address)
| PrintHelp
| Broadcast (message : str) (acts : list action)
| PrintUnknown.

(** One turn of [command_loop] on a line the operator typed. *)
Definition command_step (line : str) (self : state)
  : state * operator_action :=
  let command := strip line in
  if str_eqb (lower command) (lit "quit")
  then ({| running := false; clients := clients self |}, Quit)
  else if str_eqb (lower command) (lit "list")
  then (self, PrintClients (List.map (fun en => snd (fst en)) (clients self)))
  else if str_eqb (lower command) (lit "help")
  then (self, PrintHelp)
  else if str_eqb (lower command) (lit "led:on")
  then (self, Broadcast (lit "LED:ON")
                        (snd (send_to_all sendall (lit "LED:ON") self)))
  else if str_eqb (lower command) (lit "led:off")
  then (self, Broadcast (lit "LED:OFF")
                        (snd (send_to_all sendall (lit "LED:OFF") self)))
  else if str_eqb (lower command) (lit "get:sensor")
  then (self, Broadcast (lit "GET:SENSOR")
                        (snd (send_to_all sendall (lit "GET:SENSOR") self)))
  else if starts_with (lit "send ") (lower command)
  then let message := skipn 5 command in
       (self, Broadcast message (snd (send_to_all sendall message self)))
  else (self, PrintUnknown).
End Operator.
End ServerOps.

(** ** [StepperMotorCLI.process_command] *)

Module CLI.
Section ProcessCommand.
Context {rt : Runtime} {Link : Type}.
Variable write_gatt_char : Link -> bytes -> Link * option exn.
(** [format(x, '.1f')] and [int] of a string ([None] when it raises
    [ValueError]), routines of the interpreter. *)
Variable float_format_1f : float -> str.
Variable int_of_str : str -> option Z.

Record state : Type := {
  ble_client : option (Client.state (Link := Link));
  current_angle : float
}.

(** What the tool prints. *)
Inductive output : Type :=
| PrintHelp
| PrintClear
| PrintAngle (text : str)
| PrintNotConnected
| PrintPreset (text : str)
| PrintAbsolute (text : str)
| PrintNeedAngle
| PrintRelative (text : str) (clockwise : bool)
| PrintReset
| PrintStatusRequested
| PrintPowerToggled
| PrintSpeedSet (speed : Z)
| PrintSpeedError
| PrintUnknown (command : str)
| PrintInputError.

(** How a call ends: the answer or the exception, the state, what was
    printed, and what [send_command] did. *)
Definition ending : Type := result bool * state * list output * trace.

Definition answer (self : state) (out : list output) : ending :=
  (Ok true, self, out, []).

(** [await self.ble_client.send_command(motor_cmd)], then [on_success]
    when it answered [True]. *)
Definition send_then (motor_cmd : str) (client : Client.state)
  (self : state) (on_success : state * list output) : ending :=
  match Client.send_command write_gatt_char motor_cmd client with
  | (Raise e, client', tr) =>
      (Raise e,
       {| ble_client := Some client'; current_angle := current_angle self |},
       [], tr)
  | (Ok true, client', tr) =>
      (Ok true,
       {| ble_client := Some client';
          current_angle := current_angle (fst on_success) |},
       snd on_success, tr)
  | (Ok false, client', tr) =>
      (Ok true,
       {| ble_client := Some client'; current_angle := current_angle self |},
       [], tr)
  end.

Definition nonempty_str (s : str) : bool :=
  match s with
  | [] => false
  | _ :: _ => true
  end.

(** The [try] block, for a connected client. *)
Definition motor_command (command : str) (client : Client.state)
  (self : state) : ending :=
  if starts_with (lit "a") command then
    let angle_str := skipn 1 command in
    if nonempty_str angle_str then
      match float_of_str angle_str with
      | None => answer self [PrintInputError]
      | Some angle =>
          send_then (MotorCommands.absolute_move angle) client self
            (self, [PrintAbsolute (format_angle float_format_1f angle)])
      end
    else answer self [PrintNeedAngle]
  else if starts_with (lit "r") command then
    let angle_str := skipn 1 command in
    if nonempty_str angle_str then
      match float_of_str angle_str with
      | None => answer self [PrintInputError]
      | Some angle =>
          send_then (MotorCommands.relative_move angle) client self
            (self,
             [PrintRelative (float_format_1f (PrimFloat.abs angle))
                            (PrimFloat.leb PrimFloat.zero angle)])
      end
    else answer self [PrintNeedAngle]
  else if str_eqb command (lit "z") then
    send_then MotorCommands.reset_position client self
      ({| ble_client := ble_client self; current_angle := PrimFloat.zero |},
       [PrintReset])
  else if str_eqb command (lit "s") then
    send_then MotorCommands.get_status client self
      (self, [PrintStatusRequested])
  else if str_eqb command (lit "p") then
    send_then MotorCommands.toggle_power_saving client self
      (self, [PrintPowerToggled])
  else if starts_with (lit "v") command then
    let speed_str := skipn 1 command in
    if nonempty_str speed_str then
      match int_of_str speed_str with
      | None => answer self [PrintSpeedError]
      | Some speed =>
          match MotorCommands.set_speed speed with
          | Raise _ => answer self [PrintSpeedError]
          | Ok motor_cmd =>
              send_then motor_cmd client self (self, [PrintSpeedSet speed])
          end
      end
    else send_then (lit "v") client self (self, [])
  else answer self [PrintUnknown command].

Definition process_command (line : str) (self : state) : ending :=
  if negb (nonempty_str line) then answer self []
  else
    let command := lower (strip line) in
    if list_contains command [lit "quit"; lit "q"; lit "exit"]
    then (Ok false, self, [], [])
    else if list_contains command [lit "help"; lit "h"]
    then answer self [PrintHelp]
    else if str_eqb command (lit "clear")
    then answer self [PrintClear]
    else if str_eqb command (lit "angle")
    then answer self
           [PrintAngle (format_angle float_format_1f (current_angle self))]
    else
      match ble_client self with
      | None => answer self [PrintNotConnected]
      | Some client =>
          if negb (Client.is_connected client)
          then answer self [PrintNotConnected]
          else if list_contains command
                    [lit "0"; lit "90"; lit "180"; lit "270"]
          then
            match float_of_str command with
            | None => (Raise ValueError, self, [], [])
            | Some angle =>
                send_then (MotorCommands.absolute_move angle) client self
                  (self, [PrintPreset (format_angle float_format_1f angle)])
            end
          else motor_command command client self
      end.
End ProcessCommand.
End CLI.

(** The records of a trace that report a rejected command. *)
Fixpoint rejections_of (t : trace) : list str :=
  match t with
  | [] => []
  | LogError (InvalidCommand c) :: t' => c :: rejections_of t'
  | _ :: t' => rejections_of t'
  end.

(** The answer and the state at the end of a call of the tool. *)
Definition result_of {Link : Type} (e : CLI.ending (Link := Link))
  : result bool :=
  fst (fst (fst e)).

Definition state_of {Link : Type} (e : CLI.ending (Link := Link))
  : CLI.state :=
  snd (fst (fst e)).

(** ** [BLEDeviceScanner]: classifying devices and signal strength *)

Module Scanner.

(** [_categorize_devices]: the target devices and the others. *)
Definition _categorize_devices (devices : list Session.device_info)
  : list Session.device_info * list Session.device_info :=
  (filter Session.is_target devices,
   filter (fun d => negb (Session.is_target d)) devices).

(** [_get_signal_strength_bar]: five circles, the white one is U+26AA. *)
Definition _get_signal_strength_bar (rssi : Z) : str :=
  if -50 <=? rssi then [128994; 128994; 128994; 128994; 128994]
  else if -60 <=? rssi then [128994; 128994; 128994; 128994; 9898]
  else if -70 <=? rssi then [128993; 128993; 128993; 9898; 9898]
  else if -80 <=? rssi then [128992; 128992; 9898; 9898; 9898]
  else [128308; 9898; 9898; 9898; 9898].

Definition _get_signal_quality (rssi : Z) : str :=
  if -50 <=? rssi then [20778; 31168]
  else if -60 <=? rssi then [33391; 22909]
  else if -70 <=? rssi then [26222; 36890]
  else if -80 <=? rssi then [24369; 12356]
  else [38750; 24120; 12395; 24369; 12356].

End Scanner.

(** The circles of a bar that are not white. *)
Definition lit_circles (bar : str) : nat :=
  List.length (filter (fun c => negb (c =? 9898)) bar).

(** A reader of the numbers written with ASCII digits, to run the tool
    with. *)
Definition plain_int (s : str) : option Z :=
  match s with
  | [] => None
  | _ :: _ => digits_value 0 s
  end.

(* ===================================================================== *)
(** * Part II: properties                                                 *)
(* ===================================================================== *)

(** Comparisons that linear arithmetic decides in the context. *)
Ltac settle_comparisons :=
  repeat match goal with
         | |- context [?a <=? ?b] =>
             first [ replace (a <=? b) with true
                       by (symmetry; apply Z.leb_le; lia)
                   | replace (a <=? b) with false
                       by (symmetry; apply Z.leb_gt; lia) ]
         | |- context [?a <? ?b] =>
             first [ replace (a <? b) with true
                       by (symmetry; apply Z.ltb_lt; lia)
                   | replace (a <? b) with false
                       by (symmetry; apply Z.ltb_ge; lia) ]
         | |- context [?a =? ?b] =>
             first [ replace (a =? b) with true
                       by (symmetry; apply Z.eqb_eq; lia)
                   | replace (a =? b) with false
                       by (symmetry; apply Z.eqb_neq; lia) ]
         end.

(** ** The definitions at work *)

Example strip_example :
  strip (lit "  a b ") = lit "a b" /\ strip [9; 160; 10] = [].
Proof. split; reflexivity. Qed.

Example int_str_example :
  int_str 0 = lit "0" /\ int_str 5 = lit "5" /\ int_str (-12) = lit "-12".
Proof. repeat split. Qed.

Example split_example :
  split (lit ":") (lit "a:b::c") = Ok [lit "a"; lit "b"; []; lit "c"]
  /\ split (lit "aa") (lit "aaaxaa") = Ok [[]; lit "ax"; []]
  /\ split (lit "deg") (lit "12 deg") = Ok [lit "12 "; []].
Proof. repeat split. Qed.

Example utf8_decode_example :
  utf8_decode Strict [x61; xc3; xa9; x0a] = Ok [97; 233; 10]
  /\ utf8_decode Strict [xe2; x82; xac; xf0; x9f; x98; x80]
     = Ok [8364; 128512]
  /\ utf8_decode Strict [x61; xc3] = Raise UnicodeDecodeError
  /\ utf8_decode Ignore [x61; xc3] = Ok [97]
  /\ utf8_decode Ignore [xed; xa0; x80; x41] = Ok [65]
  /\ utf8_decode Replace [x61; xff; xe2; x82; x41] = Ok [97; 65533; 65533; 65].
Proof. repeat split; vm_compute; reflexivity. Qed.

Example utf8_encode_example :
  utf8_encode [8364; 128512; 233; 10]
  = Ok [xe2; x82; xac; xf0; x9f; x98; x80; xc3; xa9; x0a]
  /\ utf8_encode [97; 55296] = Raise UnicodeEncodeError.
Proof. split; vm_compute; reflexivity. Qed.

Example validate_example :
  _validate_command (rt := plain_runtime) (lit "  A90") = Ok true
  /\ _validate_command (rt := plain_runtime) (lit "x1") = Ok false
  /\ _validate_command (rt := plain_runtime) (lit "   ") = Ok false
  /\ _validate_command (rt := plain_runtime) [] = Ok false.
Proof. repeat split. Qed.

Example plain_decimal_example :
  plain_decimal (lit "45.0") = Some (PrimFloat.of_uint63 45)
  /\ plain_decimal (lit "90") = Some (PrimFloat.of_uint63 90)
  /\ plain_decimal (lit "12a") = None.
Proof. repeat split; vm_compute; reflexivity. Qed.

(** ** Strings *)

Lemma lstrip_app_nonspace (s : str) (c : codepoint) :
  Py_UNICODE_ISSPACE c = false ->
  exists t, lstrip (s ++ [c]) = t ++ [c].
Proof.
  intros Hc. induction s as [|d s IH]; simpl.
  - rewrite Hc. exists []. reflexivity.
  - destruct (Py_UNICODE_ISSPACE d).
    + exact IH.
    + exists (d :: s). reflexivity.
Qed.

Lemma strip_cons_nonspace (c : codepoint) (s : str) :
  Py_UNICODE_ISSPACE c = false ->
  exists t, strip (c :: s) = c :: t.
Proof.
  intros Hc. unfold strip, rstrip. simpl lstrip at 2. rewrite Hc.
  simpl rev.
  destruct (lstrip_app_nonspace (rev s) c Hc) as [t Ht].
  rewrite Ht, rev_app_distr. simpl. eexists. reflexivity.
Qed.

Lemma lstrip_all_space (s : str) :
  forallb Py_UNICODE_ISSPACE s = true -> lstrip s = [].
Proof.
  induction s as [|c s IH]; simpl; [reflexivity|].
  intros H. apply andb_prop in H. destruct H as [Hc Hs].
  rewrite Hc. auto.
Qed.

Lemma lstrip_some_nonspace (s : str) :
  forallb Py_UNICODE_ISSPACE s = false ->
  exists c t, lstrip s = c :: t /\ Py_UNICODE_ISSPACE c = false.
Proof.
  induction s as [|c s IH]; simpl; [discriminate|].
  destruct (Py_UNICODE_ISSPACE c) eqn:Hc; simpl.
  - exact IH.
  - intros _. exists c, s. auto.
Qed.

(** [strip] leaves the empty string exactly when every character is white
    space. *)
Lemma strip_nil_iff (s : str) :
  strip s = [] <-> forallb Py_UNICODE_ISSPACE s = true.
Proof.
  split.
  - intros H. destruct (forallb Py_UNICODE_ISSPACE s) eqn:Hs; [reflexivity|].
    destruct (lstrip_some_nonspace s Hs) as (c & t & Hl & Hc).
    unfold strip in H. rewrite Hl in H.
    destruct (strip_cons_nonspace c t Hc) as [u Hu].
    unfold strip in Hu. simpl lstrip in Hu. rewrite Hc in Hu.
    rewrite Hu in H. discriminate.
  - intros H. unfold strip. rewrite (lstrip_all_space s H). reflexivity.
Qed.

Section LowerFacts.
Context {rt : Runtime}.

Lemma lower_head_ascii (c : codepoint) (s : str) :
  c < 128 -> c <> 931 ->
  exists t, lower (c :: s) = ascii_lower c :: t.
Proof.
  intros Hc Hs. unfold lower.
  destruct (is_ascii (c :: s)).
  - simpl. eexists. reflexivity.
  - simpl. unfold lower_ucs4, ToLowerFull.
    destruct (Z.eqb_spec c 931) as [E|_]; [contradiction|].
    destruct (Z.ltb_spec c 128) as [_|E]; [|lia].
    simpl. eexists. reflexivity.
Qed.
End LowerFacts.

(** ** The command protocol *)

Section CommandProtocol.
Context {rt : Runtime}.
Import MotorCommands.

Lemma validate_letter_first (c : codepoint) (s : str) :
  command_letter c = true ->
  _validate_command (c :: s) = Ok true.
Proof.
  intros Hc.
  assert (Hcases : c = 97 \/ c = 114 \/ c = 122 \/ c = 115 \/ c = 112
                   \/ c = 118 \/ c = 104).
  { unfold command_letter, list_contains, valid_commands in Hc.
    simpl in Hc. unfold str_eqb in Hc. simpl in Hc.
    repeat rewrite andb_true_r in Hc.
    repeat (apply orb_prop in Hc; destruct Hc as [Hc|Hc];
            [apply Z.eqb_eq in Hc; lia|]).
    discriminate. }
  assert (Hsp : Py_UNICODE_ISSPACE c = false)
    by (destruct Hcases as [E|[E|[E|[E|[E|[E|E]]]]]]; subst c; reflexivity).
  assert (Hlow : ascii_lower c = c)
    by (destruct Hcases as [E|[E|[E|[E|[E|[E|E]]]]]]; subst c; reflexivity).
  unfold _validate_command.
  destruct (strip_cons_nonspace c s Hsp) as [t Ht]. rewrite Ht.
  destruct (lower_head_ascii c s) as [u Hu]; [lia | lia |].
  rewrite Hu, Hlow.
  destruct (strip_cons_nonspace c u Hsp) as [v Hv]. rewrite Hv.
  cbn [List.length Nat.eqb orb nth_error].
  change (list_contains [c] valid_commands) with (command_letter c).
  rewrite Hc. reflexivity.
Qed.

(** C6 (command round-trip): every helper call with an argument in range
    produces a wire text, and [_validate_command] accepts that text
    (returns [True]), whatever [repr] prints for the angle. *)
Theorem command_round_trip (c : call) :
  well_formed c ->
  exists text, encode c = Ok text /\ _validate_command text = Ok true.
Proof.
  destruct c as [angle|angle| | | |level|]; simpl; intros Hwf.
  - eexists; split; [reflexivity|].
    apply validate_letter_first. reflexivity.
  - eexists; split; [reflexivity|].
    apply validate_letter_first. reflexivity.
  - eexists; split; [reflexivity|]. apply validate_letter_first. reflexivity.
  - eexists; split; [reflexivity|]. apply validate_letter_first. reflexivity.
  - eexists; split; [reflexivity|]. apply validate_letter_first. reflexivity.
  - unfold set_speed.
    destruct (Z.leb_spec 1 level); [|lia].
    destruct (Z.leb_spec level 5); [|lia].
    simpl. eexists; split; [reflexivity|].
    apply validate_letter_first. reflexivity.
  - eexists; split; [reflexivity|]. apply validate_letter_first. reflexivity.
Qed.

(** C7 (speed-set argument bound): [set_speed n] returns the text ["v"]
    followed by the digit of [n] when [1 <= n <= 5], and raises
    [ValueError] without producing a text for every other [n], so for
    [n = 0] and [n = 6]. *)
Theorem set_speed_bound (level : Z) :
  (1 <= level <= 5 -> set_speed level = Ok [118; 48 + level])
  /\ (~ 1 <= level <= 5 -> set_speed level = Raise ValueError)
  /\ set_speed 0 = Raise ValueError
  /\ set_speed 6 = Raise ValueError.
Proof.
  repeat split; try reflexivity.
  - intros H.
    assert (E : level = 1 \/ level = 2 \/ level = 3 \/ level = 4
                \/ level = 5) by lia.
    destruct E as [E|[E|[E|[E|E]]]]; subst level; reflexivity.
  - intros H. unfold set_speed.
    destruct (Z.leb_spec 1 level); destruct (Z.leb_spec level 5);
      simpl; try reflexivity. lia.
Qed.

Lemma isspace_ascii_lower (c : codepoint) :
  Py_UNICODE_ISSPACE (ascii_lower c) = Py_UNICODE_ISSPACE c.
Proof.
  unfold ascii_lower.
  destruct (Z.leb_spec 65 c); destruct (Z.leb_spec c 90); simpl;
    try reflexivity.
  unfold Py_UNICODE_ISSPACE. settle_comparisons. reflexivity.
Qed.

Lemma do_lower_keeps_text (s : str) (i : nat) (rest : str) :
  lower_keeps_text ->
  forallb Py_UNICODE_ISSPACE rest = false ->
  forallb Py_UNICODE_ISSPACE (do_lower s i rest) = false.
Proof.
  intros Htab. revert i.
  induction rest as [|c rest IH]; intros i; simpl; [discriminate|].
  intros H. rewrite forallb_app. apply andb_false_iff.
  apply andb_false_iff in H. destruct H as [Hc|Hrest].
  - left. unfold lower_ucs4, ToLowerFull.
    destruct (Z.eqb_spec c 931) as [_|_].
    + destruct (final_sigma s i); reflexivity.
    + destruct (Z.ltb_spec c 128) as [_|Hge].
      * simpl. rewrite isspace_ascii_lower, Hc. reflexivity.
      * apply Htab; [lia | exact Hc].
  - right. apply IH. exact Hrest.
Qed.

Lemma lower_keeps_nonspace (s : str) :
  lower_keeps_text ->
  forallb Py_UNICODE_ISSPACE s = false ->
  forallb Py_UNICODE_ISSPACE (lower s) = false.
Proof.
  intros Htab H. unfold lower. destruct (is_ascii s).
  - rewrite <- H. clear H.
    induction s as [|c s IH]; simpl; [reflexivity|].
    rewrite isspace_ascii_lower, IH. reflexivity.
  - apply do_lower_keeps_text; assumption.
Qed.

(** C10 (validate is total): [_validate_command] returns a boolean for
    every string and never raises: a string that is empty or all white
    space is answered [False] by the guard, and for every other string
    the index [0] of [command.lower().strip()] is in bounds, as lower
    casing keeps a character that is not white space. *)
Theorem validate_total (command : str) :
  lower_keeps_text ->
  (exists b, _validate_command command = Ok b)
  /\ (strip command = [] -> _validate_command command = Ok false).
Proof.
  intros Htab. unfold _validate_command. split.
  - destruct (strip command) as [|c t] eqn:Hs.
    + rewrite orb_true_r. eexists. reflexivity.
    + destruct command as [|d command]; [discriminate Hs|].
      cbn [List.length Nat.eqb orb].
      assert (Hn : forallb Py_UNICODE_ISSPACE (d :: command) = false).
      { destruct (forallb Py_UNICODE_ISSPACE (d :: command)) eqn:E;
          [|reflexivity].
        apply strip_nil_iff in E. rewrite E in Hs. discriminate. }
      apply (lower_keeps_nonspace _ Htab) in Hn.
      destruct (strip (lower (d :: command))) as [|x u] eqn:Hl.
      * apply strip_nil_iff in Hl. rewrite Hl in Hn. discriminate.
      * simpl. eexists. reflexivity.
  - intros Hs. rewrite Hs. simpl. rewrite orb_true_r. reflexivity.
Qed.
End CommandProtocol.

Lemma plain_runtime_keeps_text : @lower_keeps_text plain_runtime.
Proof.
  intros c _ Hc. simpl. rewrite Hc. reflexivity.
Qed.

Lemma command_round_trip_witness :
  well_formed (MotorCommands.SetSpeed 3)
  /\ exists text,
       MotorCommands.encode (rt := plain_runtime) (MotorCommands.SetSpeed 3)
       = Ok text
       /\ _validate_command (rt := plain_runtime) text = Ok true.
Proof.
  split; [simpl; lia|].
  apply (command_round_trip (rt := plain_runtime) (MotorCommands.SetSpeed 3)).
  simpl; lia.
Defined.

Lemma set_speed_bound_witness :
  1 <= 3 <= 5 /\ MotorCommands.set_speed 3 = Ok [118; 51].
Proof.
  split; [lia|]. apply (proj1 (set_speed_bound 3)). lia.
Defined.

Lemma validate_total_witness :
  @lower_keeps_text plain_runtime
  /\ exists b, _validate_command (rt := plain_runtime) [32; 233; 32] = Ok b.
Proof.
  split; [exact plain_runtime_keeps_text|].
  apply (proj1 (validate_total (rt := plain_runtime) [32; 233; 32]
                               plain_runtime_keeps_text)).
Defined.

(** ** Sending a command *)

Section SendCommand.
Context {rt : Runtime} {Link : Type}.
Variable write_gatt_char : Link -> bytes -> Link * option exn.
Import Client.

(** C8 (send while not connected): when [is_connected] is false or there
    is no [BleakClient], [send_command] answers [False] with the error
    record "device not connected", hands nothing to the transport, and
    returns the client state as it was. *)
Theorem send_not_connected (command : str) (self : state) :
  is_connected self = false \/ client self = None ->
  send_command write_gatt_char command self
  = (Ok false, self, [LogError DeviceNotConnected])
  /\ writes_of (snd (send_command write_gatt_char command self)) = [].
Proof.
  intros H. unfold send_command.
  destruct (is_connected self); destruct (client self);
    destruct H as [H|H]; try discriminate; split; reflexivity.
Qed.
End SendCommand.

Lemma send_not_connected_witness :
  let self := {| Client.client := Some tt; Client.is_connected := false |} in
  let write := fun (l : unit) (_ : bytes) => (l, @None exn) in
  (Client.is_connected self = false \/ Client.client self = None)
  /\ Client.send_command (rt := plain_runtime) write [97; 57; 48] self
     = (Ok false, self, [LogError DeviceNotConnected]).
Proof.
  split; [left; reflexivity|].
  apply (proj1 (send_not_connected (rt := plain_runtime)
                  (fun (l : unit) (_ : bytes) => (l, @None exn))
                  [97; 57; 48]
                  {| Client.client := Some tt; Client.is_connected := false |}
                  (or_introl eq_refl))).
Defined.

(** ** Framing, at the level of the decoded text *)

Lemma complete_lines_no_newline (s : str) :
  index Framer.NL s = None -> complete_lines s = ([], s).
Proof.
  induction s as [|c s IH]; simpl; [reflexivity|].
  unfold Framer.NL in *.
  destruct (c =? 10); [discriminate|].
  destruct (index 10 s); [discriminate|].
  intros _. rewrite IH by reflexivity. reflexivity.
Qed.

Lemma complete_lines_first_newline (s : str) (i : nat) :
  index Framer.NL s = Some i ->
  complete_lines s =
  (firstn i s :: fst (complete_lines (skipn (i + 1) s)),
   snd (complete_lines (skipn (i + 1) s))).
Proof.
  revert i. induction s as [|c s IH]; simpl; intros i; [discriminate|].
  unfold Framer.NL in *.
  destruct (c =? 10) eqn:Hc.
  - intros H. injection H as <-. simpl.
    destruct (complete_lines s). reflexivity.
  - destruct (index 10 s) as [j|]; [|discriminate].
    intros H. injection H as <-.
    rewrite (IH j eq_refl). simpl. reflexivity.
Qed.

Lemma remainder_no_newline (s : str) :
  index Framer.NL (remainder s) = None.
Proof.
  unfold remainder, Framer.NL.
  induction s as [|c s IH]; simpl; [reflexivity|].
  destruct (complete_lines s) as [ls r]. simpl in IH.
  destruct (c =? 10) eqn:Hc; simpl; [exact IH|].
  destruct ls; simpl; [|exact IH].
  rewrite Hc, IH. reflexivity.
Qed.

(** Lines do not depend on where the text is cut. *)
Lemma complete_lines_app (a b : str) :
  complete_lines (a ++ b) =
  (fst (complete_lines a) ++ fst (complete_lines (remainder a ++ b)),
   snd (complete_lines (remainder a ++ b))).
Proof.
  unfold remainder.
  induction a as [|c a IH]; simpl.
  - destruct (complete_lines b); reflexivity.
  - rewrite IH. destruct (complete_lines a) as [la ra]. simpl.
    destruct (c =? 10) eqn:Hc; simpl; [reflexivity|].
    destruct la as [|l la]; simpl.
    + rewrite Hc.
      destruct (complete_lines (ra ++ b)) as [lb rb]. simpl.
      destruct lb; reflexivity.
    + reflexivity.
Qed.

Lemma framed_app (a b : str) :
  framed (a ++ b) = framed a ++ framed (remainder a ++ b).
Proof.
  unfold framed. rewrite complete_lines_app. simpl.
  rewrite map_app, filter_app. reflexivity.
Qed.

Lemma remainder_app (a b : str) :
  remainder (a ++ b) = remainder (remainder a ++ b).
Proof.
  unfold remainder at 1 2. rewrite complete_lines_app. reflexivity.
Qed.

Lemma framed_no_newline (s : str) :
  index Framer.NL s = None -> framed s = [] /\ remainder s = s.
Proof.
  intros H. unfold framed, remainder.
  rewrite (complete_lines_no_newline s H). split; reflexivity.
Qed.

(** ** The framing loop *)

Section FramerFacts.
Context {Sub : Type}.
Variable on_status_received : str -> Sub -> Sub * option exn.
Import Framer.

Local Abbreviation frame_loop := (frame_loop on_status_received).
Local Abbreviation deliver := (deliver on_status_received).
Local Abbreviation quiet := (quiet on_status_received).

Lemma frame_loop_unfold (buf : str) (sub : Sub) :
  frame_loop buf sub =
  match index NL buf with
  | None => stop buf sub
  | Some line_end =>
      let message := strip (firstn line_end buf) in
      let buf' := skipn (line_end + 1) buf in
      match message with
      | [] => frame_loop buf' sub
      | _ :: _ =>
          match on_status_received message sub with
          | (sub', None) =>
              before (StatusReceived message) (frame_loop buf' sub')
          | (sub', Some e) =>
              {| final := {| message_buffer := buf'; subscriber := sub' |};
                 raised := Some e;
                 events := [StatusReceived message] |}
          end
      end
  end.
Proof.
  destruct buf as [|c tl]; simp frame_loop; [reflexivity|].
  destruct (index NL (c :: tl)); reflexivity.
Qed.

(** The loop hands the messages of the buffer to the subscriber in order,
    stops at the first call that raises, and otherwise leaves the
    remainder in the buffer. *)
Lemma frame_loop_spec (buf : str) (sub : Sub) :
  let o := frame_loop buf sub in
  let '(d, s, r) := deliver (framed buf) sub in
  events o = List.map StatusReceived d
  /\ subscriber (final o) = s
  /\ raised o = r
  /\ (r = None -> message_buffer (final o) = remainder buf).
Proof.
  remember (List.length buf) as n eqn:Hn.
  revert buf sub Hn.
  induction n as [n IH] using lt_wf_ind. intros buf sub Hn.
  cbv zeta. rewrite frame_loop_unfold.
  destruct (index NL buf) as [i|] eqn:Hi.
  - unfold framed, remainder.
    rewrite (complete_lines_first_newline buf i Hi). cbn [fst snd List.map].
    assert (Hlt : (List.length (skipn (i + 1) buf) < n)%nat).
    { subst n. rewrite length_skipn.
      destruct buf; [discriminate | cbn [List.length]; lia]. }
    cbv zeta.
    destruct (strip (firstn i buf)) as [|x m] eqn:Hm; cbn [filter nonempty].
    + specialize (IH _ Hlt (skipn (i + 1) buf) sub eq_refl).
      cbv zeta in IH. exact IH.
    + cbn [deliver].
      destruct (on_status_received (x :: m) sub) as [sub' [e|]].
      * cbn. repeat split. discriminate.
      * specialize (IH _ Hlt (skipn (i + 1) buf) sub' eq_refl).
        cbv zeta in IH. unfold framed, remainder in IH.
        destruct (deliver _ sub') as [[d s] r].
        destruct IH as (He & Hs & Hr & Hb).
        cbn. rewrite He. repeat split; assumption.
  - destruct (framed_no_newline buf Hi) as [Hf Hr]. rewrite Hf, Hr.
    cbn. repeat split.
Qed.

Lemma deliver_quiet (ms : list str) (sub : Sub) :
  quiet -> fst (fst (deliver ms sub)) = ms /\ snd (deliver ms sub) = None.
Proof.
  intros Hq. revert sub. induction ms as [|m ms IH]; intros sub; simpl.
  - split; reflexivity.
  - specialize (Hq m sub).
    destruct (on_status_received m sub) as [sub' [e|]]; [discriminate|].
    specialize (IH sub'). destruct (deliver ms sub') as [[d s] r].
    simpl in *. destruct IH as [-> ->]. split; reflexivity.
Qed.

Lemma deliver_nil (sub : Sub) : deliver [] sub = ([], sub, None).
Proof. reflexivity. Qed.

Lemma deliver_one (m : str) (sub : Sub) :
  deliver [m] sub
  = ([m], fst (on_status_received m sub), snd (on_status_received m sub)).
Proof.
  simpl. destruct (on_status_received m sub) as [sub' [e|]]; reflexivity.
Qed.

(** What is handed over is an initial segment of the messages. *)
Lemma deliver_prefix (ms : list str) (sub : Sub) :
  exists rest, ms = fst (fst (deliver ms sub)) ++ rest.
Proof.
  revert sub. induction ms as [|m ms IH]; intros sub; simpl.
  - exists []. reflexivity.
  - destruct (on_status_received m sub) as [sub' [e|]].
    + exists ms. reflexivity.
    + destruct (IH sub') as [rest Hrest].
      destruct (deliver ms sub') as [[d s] r]. simpl in *.
      exists rest. rewrite Hrest at 1. reflexivity.
Qed.

(** A delivery that ends without a raise has returned from the call for
    every message. *)
Lemma deliver_returned (ms : list str) (sub : Sub) :
  forall d s, deliver ms sub = (d, s, None) -> d = ms.
Proof.
  revert sub. induction ms as [|m ms IH]; intros sub d s; simpl.
  - intros H. injection H as <- _. reflexivity.
  - destruct (on_status_received m sub) as [sub' [e|]]; [discriminate|].
    destruct (deliver ms sub') as [[d' s'] r'] eqn:E.
    intros H. injection H as <- _ ->.
    rewrite (IH sub' d' s' E). reflexivity.
Qed.

(** A delivery that ends with a raise has returned from the calls for the
    messages before the last one handed over, and the call for that one
    is the call that raised. *)
Lemma deliver_raised (ms : list str) (sub : Sub) :
  forall d s e,
    deliver ms sub = (d, s, Some e) ->
    exists pre m post sub_m,
      ms = pre ++ m :: post
      /\ d = pre ++ [m]
      /\ deliver pre sub = (pre, sub_m, None)
      /\ on_status_received m sub_m = (s, Some e).
Proof.
  revert sub. induction ms as [|m ms IH]; intros sub d s e; simpl.
  - discriminate.
  - destruct (on_status_received m sub) as [sub' [x|]] eqn:Em.
    + intros H. injection H as <- <- <-.
      exists [], m, ms, sub. repeat split. exact Em.
    + destruct (deliver ms sub') as [[d' s'] r'] eqn:E.
      intros H. injection H as <- <- ->.
      destruct (IH sub' d' s' e E) as (pre & m' & post & sub_m & -> & -> & Hp & Hm).
      exists (m :: pre), m', post, sub_m. repeat split; try assumption.
      simpl. rewrite Em, Hp. reflexivity.
Qed.

Lemma messages_of_map (ms : list str) :
  messages_of (List.map StatusReceived ms) = ms.
Proof.
  induction ms as [|m ms IH]; simpl; [reflexivity|]. rewrite IH. reflexivity.
Qed.

Lemma messages_of_app (t u : trace) :
  messages_of (t ++ u) = messages_of t ++ messages_of u.
Proof.
  induction t as [|ev t IH]; simpl; [reflexivity|].
  destruct ev; simpl; rewrite IH; reflexivity.
Qed.
End FramerFacts.

(** ** The decoder *)

Lemma utf8_decode_cons (e : errors) (b : byte) (rest : bytes) :
  utf8_decode e (b :: rest) =
  match utf8_step b rest with
  | Decoded ch n => emit ch (utf8_decode e (skipn (Nat.pred n) rest))
  | Invalid n => on_error e (utf8_decode e (skipn (Nat.pred n) rest))
  | Truncated => on_error e (Ok [])
  end.
Proof.
  simp utf8_decode. destruct (utf8_step b rest); reflexivity.
Qed.

(** Induction on the input of the decoder, by its length. *)
Lemma bytes_length_ind (P : bytes -> Prop) :
  P [] ->
  (forall b rest,
      (forall k, P (skipn k rest)) -> P (b :: rest)) ->
  forall s, P s.
Proof.
  intros Hnil Hcons s.
  remember (List.length s) as n eqn:Hn. revert s Hn.
  induction n as [n IH] using lt_wf_ind. intros [|b rest] Hn.
  - exact Hnil.
  - apply Hcons. intros k. apply (IH (List.length (skipn k rest))).
    + subst n. rewrite length_skipn. simpl. lia.
    + reflexivity.
Qed.

(** Lossy decoding never raises. *)
Lemma utf8_decode_ignore_total (s : bytes) :
  exists t, utf8_decode Ignore s = Ok t.
Proof.
  induction s as [|b rest IH] using bytes_length_ind.
  - exists []. reflexivity.
  - rewrite utf8_decode_cons.
    destruct (utf8_step b rest) as [ch n|n|].
    + destruct (IH (Nat.pred n)) as [t ->]. eexists. reflexivity.
    + destruct (IH (Nat.pred n)) as [t ->]. eexists. reflexivity.
    + eexists. reflexivity.
Qed.

(** Strict decoding raises [UnicodeDecodeError] only. *)
Lemma utf8_decode_strict_raise (s : bytes) (e : exn) :
  utf8_decode Strict s = Raise e -> e = UnicodeDecodeError.
Proof.
  induction s as [|b rest IH] using bytes_length_ind.
  - discriminate.
  - rewrite utf8_decode_cons.
    destruct (utf8_step b rest) as [ch n|n|]; simpl.
    + destruct (utf8_decode Strict (skipn (Nat.pred n) rest)) eqn:E; simpl.
      * discriminate.
      * intros H. injection H as <-. apply (IH (Nat.pred n)). exact E.
    + congruence.
    + congruence.
Qed.

(** Where strict decoding succeeds, every error policy gives its text. *)
Lemma utf8_decode_strict_any (s : bytes) (t : str) (e : errors) :
  utf8_decode Strict s = Ok t -> utf8_decode e s = Ok t.
Proof.
  revert t. induction s as [|b rest IH] using bytes_length_ind; intros t.
  - simp utf8_decode; auto.
  - rewrite !utf8_decode_cons.
    destruct (utf8_step b rest) as [ch n|n|]; simpl; try discriminate.
    destruct (utf8_decode Strict (skipn (Nat.pred n) rest)) eqn:E; simpl;
      [|discriminate].
    intros H. rewrite (IH (Nat.pred n) _ E). exact H.
Qed.

(** A complete character at the head of the input is decoded without
    regard to what follows it. *)
Lemma utf8_step_decoded_app (b : byte) (rest more : bytes)
      (ch : codepoint) (n : nat) :
  utf8_step b rest = Decoded ch n ->
  utf8_step b (rest ++ more) = Decoded ch n
  /\ skipn (Nat.pred n) (rest ++ more) = skipn (Nat.pred n) rest ++ more.
Proof.
  unfold utf8_step.
  destruct rest as [|b2 [|b3 [|b4 rest]]]; cbn [app]; cbv zeta;
    repeat match goal with
           | |- context [if ?c then _ else _] => destruct c
           end;
    intros H; try discriminate H; injection H as <- <-;
    split; reflexivity.
Qed.

(** Decoding a valid chunk followed by more bytes: the text of the chunk,
    then the lossy decoding of the rest. *)
Lemma utf8_decode_valid_app (a more : bytes) (ta : str) :
  utf8_decode Strict a = Ok ta ->
  forall tm, utf8_decode Ignore more = Ok tm ->
             utf8_decode Ignore (a ++ more) = Ok (ta ++ tm).
Proof.
  revert ta. induction a as [|b rest IH] using bytes_length_ind;
    intros ta Ha tm Hm.
  - simp utf8_decode in Ha. injection Ha as <-. exact Hm.
  - rewrite utf8_decode_cons in Ha.
    destruct (utf8_step b rest) as [ch n|n|] eqn:Hstep; simpl in Ha;
      try discriminate.
    destruct (utf8_decode Strict (skipn (Nat.pred n) rest)) as [t'|] eqn:E;
      simpl in Ha; [|discriminate].
    injection Ha as <-.
    destruct (utf8_step_decoded_app b rest more ch n Hstep) as [Hs Hk].
    cbn [app]. rewrite utf8_decode_cons, Hs, Hk.
    rewrite (IH (Nat.pred n) t' E tm Hm). reflexivity.
Qed.

Lemma utf8_decode_ignore_chunk_text (data : bytes) :
  utf8_decode Ignore data = Ok (chunk_text data).
Proof.
  unfold chunk_text.
  destruct (utf8_decode_ignore_total data) as [t ->]. reflexivity.
Qed.

Lemma chunk_text_valid_app (a more : bytes) :
  valid_utf8 a = true ->
  chunk_text (a ++ more) = chunk_text a ++ chunk_text more.
Proof.
  unfold valid_utf8. destruct (utf8_decode Strict a) as [ta|] eqn:Ha;
    [intros _|discriminate].
  assert (Hta : chunk_text a = ta).
  { unfold chunk_text. rewrite (utf8_decode_strict_any a ta Ignore Ha).
    reflexivity. }
  rewrite Hta. unfold chunk_text at 1.
  rewrite (utf8_decode_valid_app a more ta Ha _
             (utf8_decode_ignore_chunk_text more)).
  reflexivity.
Qed.

Lemma chunk_text_concat (chunks : list bytes) :
  forallb valid_utf8 chunks = true ->
  chunk_text (List.concat chunks) = List.concat (List.map chunk_text chunks).
Proof.
  induction chunks as [|c chunks IH]; simpl; intros H.
  - reflexivity.
  - apply andb_prop in H. destruct H as [Hc Hcs].
    rewrite (chunk_text_valid_app c _ Hc), (IH Hcs). reflexivity.
Qed.

(** The lossy text is the substituted text without the substitutes that
    stand for the invalid byte sequences. *)
Lemma utf8_decode_ignore_replace (s : bytes) :
  exists t r,
    utf8_decode Ignore s = Ok t /\ utf8_decode Replace s = Ok r
    /\ drops_substitutes t r.
Proof.
  induction s as [|b rest IH] using bytes_length_ind.
  - exists [], []. repeat split. constructor.
  - rewrite !utf8_decode_cons.
    destruct (utf8_step b rest) as [ch n|n|].
    + destruct (IH (Nat.pred n)) as (t & r & -> & -> & H).
      exists (ch :: t), (ch :: r). repeat split. constructor. exact H.
    + destruct (IH (Nat.pred n)) as (t & r & -> & -> & H).
      exists t, (65533 :: r). repeat split. constructor. exact H.
    + exists [], [65533]. repeat split. repeat constructor.
Qed.

Lemma chunk_text_drops_substitutes (data : bytes) :
  drops_substitutes (chunk_text data) (substituted_text data).
Proof.
  unfold chunk_text, substituted_text.
  destruct (utf8_decode_ignore_replace data) as (t & r & -> & -> & H).
  exact H.
Qed.

Lemma decode_chunk_spec (data : bytes) :
  Framer.decode_chunk data =
  Ok (chunk_text data,
      if valid_utf8 data then [] else [LogWarning EncodingErrorDetected]).
Proof.
  unfold Framer.decode_chunk, valid_utf8.
  destruct (utf8_decode Strict data) as [t|e] eqn:Hs.
  - unfold chunk_text. rewrite (utf8_decode_strict_any data t Ignore Hs).
    reflexivity.
  - rewrite (utf8_decode_strict_raise data e Hs).
    rewrite utf8_decode_ignore_chunk_text. reflexivity.
Qed.

(** ** The notification handler *)

Section HandlerFacts.
Context {Sub : Type}.
Variable on_status_received : str -> Sub -> Sub * option exn.
Import Framer.

Local Abbreviation frame_loop := (frame_loop on_status_received).
Local Abbreviation handler := (_notification_handler on_status_received).
Local Abbreviation feed := (feed on_status_received).
Local Abbreviation deliver := (deliver on_status_received).
Local Abbreviation quiet := (quiet on_status_received).

Lemma handler_unfold (data : bytes) (self : state) :
  handler data self =
  let o := frame_loop (message_buffer self ++ chunk_text data)
                      (subscriber self) in
  except_Exception
    {| final := final o; raised := raised o;
       events := warning_of data ++ events o |}.
Proof.
  unfold Framer._notification_handler. rewrite decode_chunk_spec.
  reflexivity.
Qed.

Lemma messages_of_warning (data : bytes) : messages_of (warning_of data) = [].
Proof. unfold warning_of. destruct (valid_utf8 data); reflexivity. Qed.

(** What one notification does, for any subscriber. *)
Lemma handler_spec (data : bytes) (self : state) :
  let text := message_buffer self ++ chunk_text data in
  let o := handler data self in
  let '(d, s, r) := deliver (framed text) (subscriber self) in
  messages_of (events o) = d
  /\ subscriber (final o) = s
  /\ (valid_utf8 data = false ->
      In (LogWarning EncodingErrorDetected) (events o))
  /\ match r with
     | None => raised o = None
               /\ message_buffer (final o) = remainder text
     | Some e =>
         if isinstance_Exception e
         then raised o = None
              /\ message_buffer (final o) = []
              /\ In (LogError (NotificationError e)) (events o)
         else raised o = Some e
     end.
Proof.
  cbv zeta. rewrite handler_unfold. cbv zeta.
  pose proof (frame_loop_spec on_status_received
                (message_buffer self ++ chunk_text data)
                (subscriber self)) as H.
  cbv zeta in H.
  destruct (deliver (framed (message_buffer self ++ chunk_text data))
                    (subscriber self)) as [[d s] r].
  destruct H as (He & Hs & Hr & Hb).
  assert (Hw : valid_utf8 data = false ->
               In (LogWarning EncodingErrorDetected) (warning_of data)).
  { unfold warning_of. intros ->. left. reflexivity. }
  unfold except_Exception. cbn [raised]. rewrite Hr.
  destruct r as [e|].
  - destruct (isinstance_Exception e); cbn [events final raised subscriber
                                             message_buffer].
    + rewrite !messages_of_app, messages_of_warning, He, messages_of_map.
      cbn [messages_of app]. rewrite app_nil_r.
      repeat split; try assumption.
      * intros Hv. apply in_or_app. left. apply in_or_app. left. auto.
      * apply in_or_app. right. left. reflexivity.
    + rewrite messages_of_app, messages_of_warning, He, messages_of_map.
      repeat split; try assumption.
      intros Hv. apply in_or_app. left. auto.
  - cbn [events final raised].
    rewrite messages_of_app, messages_of_warning, He, messages_of_map.
    repeat split; auto.
    intros Hv. apply in_or_app. left. auto.
Qed.

(** With a subscriber that returns, a notification hands over the messages
    of buffer plus chunk and keeps the remainder. *)
Lemma handler_quiet (data : bytes) (self : state) :
  quiet ->
  let text := message_buffer self ++ chunk_text data in
  let o := handler data self in
  raised o = None
  /\ messages_of (events o) = framed text
  /\ message_buffer (final o) = remainder text
  /\ subscriber (final o)
     = snd (fst (deliver (framed text) (subscriber self))).
Proof.
  intros Hq. cbv zeta.
  pose proof (handler_spec data self) as H. cbv zeta in H.
  pose proof (deliver_quiet on_status_received
                (framed (message_buffer self ++ chunk_text data))
                (subscriber self) Hq) as [Hd Hr].
  destruct (deliver _ (subscriber self)) as [[d s] r].
  simpl in Hd, Hr. subst d r.
  destruct H as (Hm & Hs & _ & Hn & Hb). auto.
Qed.

Lemma deliver_app_quiet (a b : list str) (sub : Sub) :
  quiet ->
  snd (fst (deliver (a ++ b) sub))
  = snd (fst (deliver b (snd (fst (deliver a sub))))).
Proof.
  intros Hq. revert sub. induction a as [|m a IH]; intros sub; simpl.
  - reflexivity.
  - specialize (Hq m sub).
    destruct (on_status_received m sub) as [sub' [e|]]; [discriminate|].
    specialize (IH sub').
    destruct (deliver (a ++ b) sub') as [[d s] r].
    destruct (deliver a sub') as [[d' s'] r']. exact IH.
Qed.

(** Successive notifications, with a subscriber that returns and a buffer
    that holds no complete line at the start. *)
Lemma feed_quiet (chunks : list bytes) (self : state) :
  quiet ->
  index NL (message_buffer self) = None ->
  let text := message_buffer self
              ++ List.concat (List.map chunk_text chunks) in
  let o := feed chunks self in
  raised o = None
  /\ messages_of (events o) = framed text
  /\ message_buffer (final o) = remainder text
  /\ subscriber (final o)
     = snd (fst (deliver (framed text) (subscriber self))).
Proof.
  intros Hq. revert self.
  induction chunks as [|data chunks IH]; intros self Hinv; cbv zeta.
  - simpl. rewrite app_nil_r.
    destruct (framed_no_newline _ Hinv) as [-> ->]. auto.
  - cbn [Framer.feed List.map List.concat].
    destruct (handler_quiet data self Hq) as (Hr & Hm & Hb & Hs).
    rewrite Hr.
    specialize (IH (final (handler data self))).
    rewrite Hb in IH. specialize (IH (remainder_no_newline _)).
    cbv zeta in IH. destruct IH as (Hr' & Hm' & Hb' & Hs').
    cbn [raised events final].
    rewrite messages_of_app, Hm, Hm', Hb', Hs', Hs.
    rewrite app_assoc.
    rewrite (framed_app (message_buffer self ++ chunk_text data)).
    rewrite (remainder_app (message_buffer self ++ chunk_text data)).
    rewrite deliver_app_quiet by exact Hq.
    auto.
Qed.

(** The messages of two runs, whatever the subscriber does. *)
Lemma feed_three_line_feeds (sub : Sub) :
  messages_of (events (feed [[x0a; x0a; x0a]] (fresh sub))) = [].
Proof.
  pose proof (handler_spec [x0a; x0a; x0a] (fresh sub)) as H.
  cbv zeta in H.
  replace (framed (message_buffer (fresh sub) ++ chunk_text [x0a; x0a; x0a]))
    with (@nil str) in H by (vm_compute; reflexivity).
  rewrite deliver_nil in H. destruct H as (Hm & _ & _ & Hr & _).
  cbn [Framer.feed]. rewrite Hr. cbn [events].
  rewrite messages_of_app, Hm. reflexivity.
Qed.

Lemma feed_split_line (sub : Sub) :
  messages_of (events (feed [[x61; x62]; [x63; x64; x0a]] (fresh sub)))
  = [lit "abcd"].
Proof.
  pose proof (handler_spec [x61; x62] (fresh sub)) as H1.
  cbv zeta in H1.
  replace (framed (message_buffer (fresh sub) ++ chunk_text [x61; x62]))
    with (@nil str) in H1 by (vm_compute; reflexivity).
  replace (remainder (message_buffer (fresh sub) ++ chunk_text [x61; x62]))
    with (lit "ab") in H1 by (vm_compute; reflexivity).
  rewrite deliver_nil in H1. destruct H1 as (Hm1 & _ & _ & Hr1 & Hb1).
  cbn [Framer.feed]. rewrite Hr1. cbn [events final raised].
  pose proof (handler_spec [x63; x64; x0a]
                (final (handler [x61; x62] (fresh sub)))) as H2.
  cbv zeta in H2. rewrite Hb1 in H2.
  replace (framed (lit "ab" ++ chunk_text [x63; x64; x0a]))
    with [lit "abcd"] in H2 by (vm_compute; reflexivity).
  rewrite deliver_one in H2. destruct H2 as (Hm2 & _).
  rewrite messages_of_app, Hm1. cbn [app].
  destruct (raised (handler [x63; x64; x0a] _));
    cbn [events]; rewrite ?messages_of_app, Hm2; reflexivity.
Qed.

(** C4 (framer extraction postcondition), amended: with a subscriber that
    returns, a notification hands over, in order, the trimmed content of
    every complete line of buffer plus chunk, without the lines that are
    empty after trimming, and keeps the fragment after the last line feed
    for the next notification; with any subscriber, what it hands over is
    an initial segment of these messages, a chunk of three line feeds
    gives no message, and ["ab"] followed by ["cd\n"] gives the one
    message ["abcd"]. *)
Theorem framer_extraction (data : bytes) (self : state) :
  let text := message_buffer self ++ chunk_text data in
  let o := handler data self in
  (quiet -> extracts_every_line on_status_received data self)
  /\ (exists rest, framed text = messages_of (events o) ++ rest)
  /\ (forall sub,
         messages_of (events (feed [[x0a; x0a; x0a]] (fresh sub))) = [])
  /\ (forall sub,
         messages_of
           (events (feed [[x61; x62]; [x63; x64; x0a]] (fresh sub)))
         = [lit "abcd"]).
Proof.
  cbv zeta. split; [|split; [|split]].
  - intros Hq. unfold extracts_every_line.
    destruct (handler_quiet data self Hq) as (Hr & Hm & Hb & _). auto.
  - pose proof (handler_spec data self) as H. cbv zeta in H.
    destruct (deliver_prefix on_status_received
                (framed (message_buffer self ++ chunk_text data))
                (subscriber self)) as [rest Hrest].
    destruct (deliver _ (subscriber self)) as [[d s] r].
    destruct H as (Hm & _). rewrite Hm. exists rest. exact Hrest.
  - exact feed_three_line_feeds.
  - exact feed_split_line.
Qed.
End HandlerFacts.

Lemma silent_subscriber_quiet : quiet silent_subscriber.
Proof. intros m sub. reflexivity. Qed.

(** C4, as stated, fails for a subscriber that raises: on the chunk
    [" x \n\na\ny\nz"] the complete lines give the messages ["x"], ["a"]
    and ["y"] and leave the fragment ["z"], but the call for ["a"] raises,
    so that ["y"] is not handed over and the fragment is not kept. *)
Lemma framer_extraction_counterexample :
  let data := [x20; x78; x20; x0a; x0a; x61; x0a; x79; x0a; x7a] in
  let o := Framer._notification_handler failing_subscriber data (fresh tt) in
  ~ extracts_every_line failing_subscriber data (fresh tt)
  /\ framed (chunk_text data) = [lit "x"; lit "a"; lit "y"]
  /\ remainder (chunk_text data) = lit "z"
  /\ messages_of (Framer.events o) = [lit "x"; lit "a"]
  /\ Framer.message_buffer (Framer.final o) = [].
Proof.
  unfold extracts_every_line.
  repeat split; try (vm_compute; reflexivity).
  vm_compute. intros (_ & H & _). discriminate H.
Qed.

Lemma framer_extraction_witness :
  let data := [x20; x68; x69; x20; x0a; x0a; x78] in
  quiet silent_subscriber
  /\ messages_of
       (Framer.events
          (Framer._notification_handler silent_subscriber data (fresh tt)))
     = [lit "hi"]
  /\ Framer.message_buffer
       (Framer.final
          (Framer._notification_handler silent_subscriber data (fresh tt)))
     = lit "x".
Proof.
  pose proof (proj1 (framer_extraction silent_subscriber
                       [x20; x68; x69; x20; x0a; x0a; x78] (fresh tt))
                    silent_subscriber_quiet) as H.
  unfold extracts_every_line in H. cbv zeta in H.
  destruct H as (_ & Hm & Hb).
  split; [exact silent_subscriber_quiet|]. cbv zeta.
  rewrite Hm, Hb. split; vm_compute; reflexivity.
Defined.

(** ** Chunk boundaries *)

(** C1, as stated, fails: a chunk boundary inside the two-byte character
    U+00E9 loses the character, as each chunk is decoded on its own and the
    lossy decoding drops both halves; and when the subscriber raises on
    the first of two lines, one call drops the second line with the
    buffer, while two calls deliver it. *)
Lemma chunk_boundary_counterexample :
  ~ chunk_boundary_independent silent_subscriber
      [[xc3]; [xa9; x0a]] (fresh tt)
  /\ messages_of
       (Framer.events
          (Framer._notification_handler silent_subscriber
             [xc3; xa9; x0a] (fresh tt))) = [[233]]
  /\ messages_of
       (Framer.events
          (Framer.feed silent_subscriber [[xc3]; [xa9; x0a]] (fresh tt)))
     = []
  /\ ~ chunk_boundary_independent failing_subscriber
         [[x61; x0a]; [x62; x0a]] (fresh tt).
Proof.
  unfold chunk_boundary_independent.
  repeat split; try (vm_compute; reflexivity);
    vm_compute; intros H; discriminate H.
Qed.

Section ChunkBoundaries.
Context {Sub : Type}.
Variable on_status_received : str -> Sub -> Sub * option exn.
Import Framer.

(** C1 (chunk-boundary independence), amended: with a subscriber that
    returns and a buffer that holds no complete line, feeding chunks that
    are each valid UTF-8 one by one hands over the same messages in the
    same order, and leaves the same buffer and subscriber, as feeding
    their concatenation in one call. *)
Theorem chunk_boundary_independence (chunks : list bytes) (self : state) :
  quiet on_status_received ->
  index NL (message_buffer self) = None ->
  forallb valid_utf8 chunks = true ->
  let split := feed on_status_received chunks self in
  let whole :=
    _notification_handler on_status_received (List.concat chunks) self in
  chunk_boundary_independent on_status_received chunks self
  /\ message_buffer (final split) = message_buffer (final whole)
  /\ subscriber (final split) = subscriber (final whole)
  /\ raised split = None /\ raised whole = None.
Proof.
  intros Hq Hinv Hvalid. cbv zeta. unfold chunk_boundary_independent.
  destruct (feed_quiet on_status_received chunks self Hq Hinv)
    as (Hr & Hm & Hb & Hs).
  destruct (handler_quiet on_status_received (List.concat chunks) self Hq)
    as (Hr' & Hm' & Hb' & Hs').
  rewrite (chunk_text_concat chunks Hvalid) in Hm', Hb', Hs'.
  rewrite Hm, Hm', Hb, Hb', Hs, Hs'. auto.
Qed.
End ChunkBoundaries.

Lemma chunk_boundary_independence_witness :
  let chunks := [[x61; xc3; xa9]; [x0a; x62]; [x0a]] in
  quiet silent_subscriber
  /\ index Framer.NL (Framer.message_buffer (fresh tt)) = None
  /\ forallb valid_utf8 chunks = true
  /\ chunk_boundary_independent silent_subscriber chunks (fresh tt).
Proof.
  split; [exact silent_subscriber_quiet|].
  split; [reflexivity|]. split; [reflexivity|].
  apply (proj1 (chunk_boundary_independence silent_subscriber
                  [[x61; xc3; xa9]; [x0a; x62]; [x0a]] (fresh tt)
                  silent_subscriber_quiet eq_refl eq_refl)).
Defined.

(** ** Decoding failures *)

(** C2, as stated, fails: the byte [0xff] between ["a"] and ["b"] is not
    replaced by a substitute, it is dropped, and the message is ["ab"]. *)
Lemma decode_substitution_counterexample :
  let data := [x61; xff; x62; x0a] in
  valid_utf8 data = false
  /\ ~ decodes_by_substitution silent_subscriber data (fresh tt)
  /\ messages_of
       (Framer.events
          (Framer._notification_handler silent_subscriber data (fresh tt)))
     = [lit "ab"]
  /\ framed (substituted_text data) = [[97; 65533; 98]].
Proof.
  unfold decodes_by_substitution.
  repeat split; try (vm_compute; reflexivity).
  vm_compute. intros H. discriminate H.
Qed.

Section DecodeFailure.
Context {Sub : Type}.
Variable on_status_received : str -> Sub -> Sub * option exn.
Import Framer.

(** C2 (decode-failure policy), amended: a chunk that is not valid UTF-8
    is decoded with its invalid byte sequences dropped (the text is the
    substituted one without the substitutes, and the text of any valid
    prefix is kept as it is), without raising; the warning is
    logged; and with a subscriber that returns the handler returns, hands
    over the messages of the old buffer plus that text, and keeps the
    remainder: nothing that was buffered is lost. *)
Theorem decode_failure_policy (data : bytes) (self : state) :
  valid_utf8 data = false ->
  let o := _notification_handler on_status_received data self in
  let text := message_buffer self ++ chunk_text data in
  utf8_decode Ignore data = Ok (chunk_text data)
  /\ drops_substitutes (chunk_text data) (substituted_text data)
  /\ In (LogWarning EncodingErrorDetected) (events o)
  /\ (forall a rest,
         data = a ++ rest -> valid_utf8 a = true ->
         chunk_text data = chunk_text a ++ chunk_text rest)
  /\ (quiet on_status_received ->
      raised o = None
      /\ messages_of (events o) = framed text
      /\ message_buffer (final o) = remainder text).
Proof.
  intros Hbad. cbv zeta. split; [|split; [|split; [|split]]].
  - apply utf8_decode_ignore_chunk_text.
  - apply chunk_text_drops_substitutes.
  - pose proof (handler_spec on_status_received data self) as H.
    cbv zeta in H.
    destruct (deliver _ _ (subscriber self)) as [[d s] r].
    destruct H as (_ & _ & Hw & _). exact (Hw Hbad).
  - intros a rest -> Ha. apply chunk_text_valid_app. exact Ha.
  - intros Hq.
    destruct (handler_quiet on_status_received data self Hq)
      as (Hr & Hm & Hb & _). auto.
Qed.
End DecodeFailure.

Lemma decode_failure_policy_witness :
  let data := [x61; xff; x62; x0a; x63] in
  let o := Framer._notification_handler silent_subscriber data (fresh tt) in
  valid_utf8 data = false
  /\ In (LogWarning EncodingErrorDetected) (Framer.events o).
Proof.
  split; [reflexivity|].
  apply (proj1 (proj2 (proj2 (decode_failure_policy silent_subscriber
                         [x61; xff; x62; x0a; x63] (fresh tt) eq_refl)))).
Defined.

(** ** A subscriber that raises *)

(** C3, as stated, fails: when the subscriber raises on ["a"], the chunk
    ["a\nb\nc"] hands over ["a"] only; the line ["b"] is never delivered
    and the fragment ["c"] is not kept. *)
Lemma subscriber_failure_counterexample :
  let data := [x61; x0a; x62; x0a; x63] in
  let o := Framer._notification_handler failing_subscriber data (fresh tt) in
  ~ isolates_subscriber_failure failing_subscriber data (fresh tt)
  /\ framed (chunk_text data) = [lit "a"; lit "b"]
  /\ remainder (chunk_text data) = lit "c"
  /\ messages_of (Framer.events o) = [lit "a"]
  /\ Framer.message_buffer (Framer.final o) = [].
Proof.
  unfold isolates_subscriber_failure.
  repeat split; try (vm_compute; reflexivity).
  vm_compute. intros [H _]. discriminate H.
Qed.

Section SubscriberFailure.
Context {Sub : Type}.
Variable on_status_received : str -> Sub -> Sub * option exn.
Import Framer.

(** C3 (a subscriber that raises), amended: when the call of the
    subscriber for a message raises an [Exception], the handler catches
    it and returns, logs the error, and empties the buffer.  The messages
    handed over are those of the delivery that stops at the first raise:
    the messages [pre] before the failing one, whose calls all returned,
    and the failing message [m] itself, whose call raised the exception;
    the complete lines [post] after it are not delivered, and the
    unconsumed fragment is dropped.  The buffer, being empty, holds no
    complete line. *)
Theorem subscriber_failure_resets_buffer
        (data : bytes) (self : state) (e : exn) :
  let text := message_buffer self ++ chunk_text data in
  let o := _notification_handler on_status_received data self in
  snd (deliver on_status_received (framed text) (subscriber self)) = Some e ->
  isinstance_Exception e = true ->
  raised o = None
  /\ In (LogError (NotificationError e)) (events o)
  /\ message_buffer (final o) = []
  /\ index NL (message_buffer (final o)) = None
  /\ messages_of (events o)
     = fst (fst (deliver on_status_received (framed text) (subscriber self)))
  /\ exists pre m post sub_m,
       framed text = pre ++ m :: post
       /\ messages_of (events o) = pre ++ [m]
       /\ deliver on_status_received pre (subscriber self)
          = (pre, sub_m, None)
       /\ on_status_received m sub_m = (subscriber (final o), Some e).
Proof.
  cbv zeta. intros Hr He.
  pose proof (handler_spec on_status_received data self) as H.
  cbv zeta in H.
  destruct (deliver on_status_received
              (framed (message_buffer self ++ chunk_text data))
              (subscriber self)) as [[d s] r] eqn:Hd.
  simpl in Hr. subst r.
  destruct H as (Hm & Hs & _ & Hcase). rewrite He in Hcase.
  destruct Hcase as (Hraised & Hbuf & Hlog).
  rewrite Hbuf, Hm, Hs. cbn [fst].
  repeat split; try assumption.
  destruct (deliver_raised on_status_received _ _ _ _ _ Hd)
    as (pre & m & post & sub_m & Hf & Hdm & Hpre & Hcall).
  exists pre, m, post, sub_m. auto.
Qed.
End SubscriberFailure.

Lemma subscriber_failure_resets_buffer_witness :
  let data := [x61; x0a; x62; x0a; x63] in
  let o := Framer._notification_handler failing_subscriber data (fresh tt) in
  snd (deliver failing_subscriber (framed (chunk_text data)) tt)
  = Some RuntimeError
  /\ isinstance_Exception RuntimeError = true
  /\ Framer.message_buffer (Framer.final o) = []
  /\ messages_of (Framer.events o) = [lit "a"].
Proof.
  split; [reflexivity|]. split; [reflexivity|].
  pose proof (subscriber_failure_resets_buffer failing_subscriber
                [x61; x0a; x62; x0a; x63] (fresh tt) RuntimeError
                eq_refl eq_refl) as H.
  cbv zeta in H. destruct H as (_ & _ & Hb & _ & Hm & _).
  cbv zeta. split; [exact Hb|]. rewrite Hm. vm_compute. reflexivity.
Defined.

(** ** Angle extraction *)

Lemma split_go_first (sep s cur : str) :
  exists rest, split_go sep 0 cur s = (cur ++ text_before sep s) :: rest.
Proof.
  revert cur. induction s as [|c s IH]; intros cur.
  - exists []. simpl. rewrite app_nil_r. reflexivity.
  - cbn [split_go text_before]. destruct (starts_with sep (c :: s)).
    + eexists. rewrite app_nil_r. reflexivity.
    + destruct (IH (cur ++ [c])) as [rest ->].
      exists rest. rewrite <- app_assoc. reflexivity.
Qed.

Lemma last_cons {A} (xs : list A) :
  forall x d, List.last (x :: xs) d = List.last xs x.
Proof.
  induction xs as [|y xs IH]; intros x d; [reflexivity|].
  change (List.last (x :: y :: xs) d) with (List.last (y :: xs) d).
  rewrite (IH y d), (IH y x). reflexivity.
Qed.

Lemma split_go_last (c : codepoint) (s cur : str) :
  exists x xs,
    split_go [c] 0 cur s = x :: xs
    /\ List.last xs x = match after_last c s with
                        | Some t => t
                        | None => cur ++ s
                        end.
Proof.
  revert cur. induction s as [|d s IH]; intros cur.
  - exists cur, []. simpl. rewrite app_nil_r. split; reflexivity.
  - cbn [split_go after_last starts_with List.length Nat.pred].
    rewrite andb_true_r, (Z.eqb_sym c d).
    destruct (d =? c).
    + destruct (IH []) as (x & xs & Hx & Hl).
      exists cur, (split_go [c] 0 [] s). split; [reflexivity|].
      rewrite Hx, last_cons, Hl.
      destruct (after_last c s); reflexivity.
    + destruct (IH (cur ++ [d])) as (x & xs & Hx & Hl).
      exists x, xs. split; [exact Hx|]. rewrite Hl.
      destruct (after_last c s); [reflexivity|].
      rewrite <- app_assoc. reflexivity.
Qed.

Section AngleFacts.
Context {rt : Runtime}.

Lemma angle_before_token (marker message : str) :
  marker <> [] ->
  angle_before marker message = float_of_str (angle_token marker message).
Proof.
  intros Hm. unfold angle_before, angle_token.
  change colon with [58]. unfold split.
  destruct marker as [|m0 marker]; [contradiction|].
  destruct (split_go_first (m0 :: marker) message []) as [rest ->].
  cbn [item_first app].
  destruct (split_go_last 58 (text_before (m0 :: marker) message) [])
    as (x & xs & Hx & Hl).
  unfold str, codepoint in *. rewrite Hx.
  cbn [item_last]. rewrite Hl. reflexivity.
Qed.

End AngleFacts.


(** ** The broadcast of the TCP server *)

(** C5, as stated, fails in its second half: after the broadcast in which
    the write to peer 2 failed, peer 2 is still registered, and the next
    broadcast writes to it again. *)
Lemma broadcast_removal_counterexample :
  let message := lit "LED:ON" in
  let after := fst (Server.send_to_all second_fails message three_peers) in
  ~ failed_peer_removed second_fails message three_peers
  /\ Server.clients after = [peer1; peer2; peer3]
  /\ Server.receivers (snd (Server.send_to_all all_succeed message after))
     = [1%nat; 2%nat; 3%nat].
Proof.
  cbv zeta. split; [|split; reflexivity].
  intros H.
  apply (H peer2 [x4c; x45; x44; x3a; x4f; x4e; x0a]).
  - right. left. reflexivity.
  - reflexivity.
  - discriminate.
  - right. left. reflexivity.
Qed.

Section BroadcastFacts.
Variable sendall : Server.socket -> bytes -> option Server.OSError.
Import Server.

Local Abbreviation write_succeeds := (write_succeeds sendall).

Lemma receivers_app (a b : list action) :
  receivers (a ++ b) = receivers a ++ receivers b.
Proof.
  induction a as [|x a IH]; simpl; [reflexivity|].
  destruct x; simpl; rewrite IH; reflexivity.
Qed.

Lemma receivers_send (message : str) (payload : bytes) (cs : list entry) :
  utf8_encode (message ++ [10]) = Ok payload ->
  receivers (flat_map (send_one sendall message) cs)
  = List.map (fun en => fst (fst en)) (filter (write_succeeds payload) cs).
Proof.
  intros Hp. induction cs as [|[[sock addr] th] cs IH]; simpl.
  - reflexivity.
  - rewrite receivers_app, IH. unfold send_one, write_succeeds.
    rewrite Hp. simpl. destruct (sendall sock payload); reflexivity.
Qed.

(** C5 (broadcast isolation), amended: a broadcast writes the message to
    every registered peer in turn, and the peers whose write succeeds all
    receive it whatever happens to the others, so with three peers of
    which the second fails, the first and the third do.  The broadcast
    leaves the client list as it was, the failed peer included; a peer
    leaves the list when its [handle_client] ends, which removes the
    entries with its address. *)
Theorem broadcast_isolation (message : str) (payload : bytes)
        (self : state) :
  utf8_encode (message ++ [10]) = Ok payload ->
  let result := send_to_all sendall message self in
  receivers (snd result)
  = List.map (fun en => fst (fst en))
             (filter (write_succeeds payload) (clients self))
  /\ fst result = self
  /\ (forall e1 e2 e3,
         clients self = [e1; e2; e3] ->
         write_succeeds payload e1 = true ->
         write_succeeds payload e2 = false ->
         write_succeeds payload e3 = true ->
         receivers (snd result) = [fst (fst e1); fst (fst e3)]
         /\ clients (fst result) = [e1; e2; e3])
  /\ (forall sock addr en,
         In en (clients (fst (handle_client_finally sock addr self)))
         <-> In en (clients self)
             /\ address_eqb (snd (fst en)) addr = false).
Proof.
  intros Hp. cbv zeta.
  assert (Hrecv : receivers (snd (send_to_all sendall message self))
                  = List.map (fun en => fst (fst en))
                      (filter (write_succeeds payload) (clients self))).
  { unfold send_to_all. destruct (clients self) as [|en cs] eqn:Hc.
    - reflexivity.
    - cbn [snd]. apply receivers_send. exact Hp. }
  assert (Hsame : fst (send_to_all sendall message self) = self).
  { unfold send_to_all. destruct (clients self); reflexivity. }
  split; [exact Hrecv|]. split; [exact Hsame|]. split.
  - intros e1 e2 e3 Hc H1 H2 H3.
    rewrite Hrecv, Hsame, Hc. cbn [filter]. rewrite H1, H2, H3.
    split; reflexivity.
  - intros sock addr en. cbn [handle_client_finally fst clients].
    rewrite filter_In. rewrite negb_true_iff. reflexivity.
Qed.
End BroadcastFacts.

Lemma broadcast_isolation_witness :
  let message := lit "LED:ON" in
  let payload := [x4c; x45; x44; x3a; x4f; x4e; x0a] in
  utf8_encode (message ++ [10]) = Ok payload
  /\ Server.receivers
       (snd (Server.send_to_all second_fails message three_peers))
     = [1%nat; 3%nat].
Proof.
  split; [reflexivity|].
  apply (proj1 (broadcast_isolation second_fails (lit "LED:ON")
                  [x4c; x45; x44; x3a; x4f; x4e; x0a] three_peers eq_refl)).
Defined.

(* ===================================================================== *)
(** * Part III: further properties of the modelled code                   *)
(* ===================================================================== *)

(** ** More on strings *)

Lemma lstrip_idempotent (s : str) : lstrip (lstrip s) = lstrip s.
Proof.
  induction s as [|c s IH]; simpl; [reflexivity|].
  destruct (Py_UNICODE_ISSPACE c) eqn:Hc; [exact IH|].
  simpl. rewrite Hc. reflexivity.
Qed.

Lemma lstrip_head_nonspace (s : str) (c : codepoint) (t : str) :
  lstrip s = c :: t -> Py_UNICODE_ISSPACE c = false.
Proof.
  induction s as [|d s IH]; simpl; [discriminate|].
  destruct (Py_UNICODE_ISSPACE d) eqn:Hd; [exact IH|].
  intros H. injection H as <- _. exact Hd.
Qed.

Lemma In_lstrip (x : codepoint) (s : str) : In x (lstrip s) -> In x s.
Proof.
  induction s as [|d s IH]; simpl; [auto|].
  destruct (Py_UNICODE_ISSPACE d); [auto|]. simpl. auto.
Qed.

Lemma In_strip (x : codepoint) (s : str) : In x (strip s) -> In x s.
Proof.
  unfold strip, rstrip. intros H.
  apply In_lstrip. apply in_rev. apply In_lstrip. apply in_rev in H. exact H.
Qed.

Lemma strip_lstrip (s : str) : strip (lstrip s) = strip s.
Proof. unfold strip. rewrite lstrip_idempotent. reflexivity. Qed.

(** A string that starts with a character that is not white space keeps it
    under [rstrip], and trimming it twice changes nothing more. *)
Lemma strip_idempotent (s : str) : strip (strip s) = strip s.
Proof.
  unfold strip at 2 3.
  destruct (lstrip s) as [|c a] eqn:Ha; [reflexivity|].
  pose proof (lstrip_head_nonspace s c a Ha) as Hc.
  unfold rstrip. simpl rev.
  destruct (lstrip_app_nonspace (rev a) c Hc) as [t Ht].
  rewrite Ht, rev_app_distr. simpl.
  unfold strip. simpl lstrip. rewrite Hc.
  unfold rstrip. simpl rev. rewrite rev_involutive.
  rewrite <- Ht, lstrip_idempotent, Ht, rev_app_distr. reflexivity.
Qed.

Lemma index_none_iff (c : codepoint) (s : str) :
  index c s = None <-> ~ In c s.
Proof.
  induction s as [|d s IH]; simpl.
  - split; auto.
  - destruct (Z.eqb_spec d c) as [E|E].
    + split; [discriminate|]. intros H. exfalso. apply H. left. exact E.
    + destruct (index c s); simpl.
      * split; [discriminate|]. intros H. exfalso.
        assert (Hn : ~ In c s) by (intros Hi; apply H; right; exact Hi).
        apply IH in Hn. discriminate.
      * split; [|reflexivity]. intros _ [H|H]; [contradiction|].
        destruct IH as [IH _]. exact (IH eq_refl H).
Qed.

Lemma index_none_app (c : codepoint) (a b : str) :
  index c a = None -> index c b = None -> index c (a ++ b) = None.
Proof.
  rewrite !index_none_iff. intros Ha Hb H.
  apply in_app_or in H. destruct H; auto.
Qed.

(** ** The notification handler, for every subscriber *)

Lemma complete_lines_no_line_feed (s : str) :
  Forall (fun l => ~ In 10 l) (fst (complete_lines s)).
Proof.
  induction s as [|c s IH]; simpl; [constructor|].
  destruct (complete_lines s) as [ls r]. simpl in IH.
  destruct (Z.eqb_spec c 10) as [E|E]; simpl.
  - constructor; [intros []|exact IH].
  - destruct ls as [|l ls]; simpl; [constructor|].
    inversion IH as [|? ? Hl Hls]; subst.
    constructor; [|exact Hls].
    intros [H|H]; [congruence|contradiction].
Qed.

Lemma framed_clean (text : str) :
  Forall (fun m => m <> [] /\ strip m = m /\ ~ In 10 m) (framed text).
Proof.
  unfold framed.
  pose proof (complete_lines_no_line_feed text) as H.
  induction (fst (complete_lines text)) as [|l ls IH]; simpl; [constructor|].
  inversion H as [|? ? Hl Hls]; subst.
  destruct (strip l) as [|x m] eqn:Hm; simpl; [exact (IH Hls)|].
  constructor; [|exact (IH Hls)].
  split; [discriminate|]. split.
  - rewrite <- Hm. apply strip_idempotent.
  - intros Hin. apply Hl. apply In_strip. rewrite Hm. exact Hin.
Qed.

Section FramerInvariants.
Context {Sub : Type}.
Variable on_status_received : str -> Sub -> Sub * option exn.
Import Framer.

Local Abbreviation handler := (_notification_handler on_status_received).
Local Abbreviation deliver := (deliver on_status_received).

Lemma deliver_incl (ms : list str) (sub : Sub) (m : str) :
  In m (fst (fst (deliver ms sub))) -> In m ms.
Proof.
  revert sub. induction ms as [|x ms IH]; intros sub; simpl; [auto|].
  destruct (on_status_received x sub) as [sub' [e|]]; simpl.
  - intros [H|[]]. left. exact H.
  - specialize (IH sub'). destruct (deliver ms sub') as [[d s] r].
    simpl in *. intros [H|H]; [left; exact H | right; exact (IH H)].
Qed.

(** Whatever the subscriber does, a notification that returns leaves no
    complete line in the buffer, and an exception leaves the handler only
    when it is not an [Exception]. *)
Theorem handler_keeps_invariant (data : bytes) (self : state) :
  match raised (handler data self) with
  | None => index NL (message_buffer (final (handler data self))) = None
  | Some e => isinstance_Exception e = false
  end.
Proof.
  pose proof (handler_spec on_status_received data self) as H.
  cbv zeta in H.
  destruct (deliver _ (subscriber self)) as [[d s] [e|]].
  - destruct H as (_ & _ & _ & H).
    destruct (isinstance_Exception e) eqn:He.
    + destruct H as (-> & -> & _). reflexivity.
    + rewrite H. exact He.
  - destruct H as (_ & _ & _ & -> & ->). apply remainder_no_newline.
Qed.

(** Every message handed to the subscriber is non-empty, has no white space
    at either end, and contains no line feed. *)
Theorem delivered_messages_trimmed (data : bytes) (self : state) :
  Forall (fun m => m <> [] /\ strip m = m /\ ~ In 10 m)
         (messages_of (events (handler data self))).
Proof.
  pose proof (handler_spec on_status_received data self) as H.
  cbv zeta in H.
  pose proof (deliver_incl (framed (message_buffer self ++ chunk_text data))
                           (subscriber self)) as Hincl.
  destruct (deliver _ (subscriber self)) as [[d s] r].
  destruct H as (-> & _). simpl in Hincl.
  apply Forall_forall. intros m Hm.
  pose proof (framed_clean (message_buffer self ++ chunk_text data)) as Hc.
  rewrite Forall_forall in Hc. apply Hc. apply Hincl. exact Hm.
Qed.

(** A chunk whose text has no line feed, arriving on a buffer without one,
    is appended to the buffer; the subscriber is not called. *)
Theorem chunk_without_line_feed_is_buffered (data : bytes) (self : state) :
  index NL (message_buffer self) = None ->
  index NL (chunk_text data) = None ->
  messages_of (events (handler data self)) = []
  /\ raised (handler data self) = None
  /\ message_buffer (final (handler data self))
     = message_buffer self ++ chunk_text data
  /\ subscriber (final (handler data self)) = subscriber self.
Proof.
  intros Hb Hc.
  pose proof (handler_spec on_status_received data self) as H.
  cbv zeta in H.
  destruct (framed_no_newline _ (index_none_app _ _ _ Hb Hc)) as [Hf Hr].
  rewrite Hf in H. simpl in H.
  destruct H as (Hm & Hs & _ & Hn & Hbuf).
  rewrite Hm, Hs, Hn, Hbuf, Hr. auto.
Qed.

Lemma warnings_of_app (t u : trace) :
  warnings_of (t ++ u) = warnings_of t ++ warnings_of u.
Proof.
  induction t as [|ev t IH]; simpl; [reflexivity|].
  destruct ev; simpl; rewrite IH; reflexivity.
Qed.

Lemma warnings_of_calls (ms : list str) :
  warnings_of (List.map StatusReceived ms) = [].
Proof. induction ms; simpl; auto. Qed.

(** The handler logs the encoding warning once for a chunk that is not
    valid UTF-8, never for a valid one, and logs no other warning. *)
Theorem warning_exactly_for_invalid_chunk (data : bytes) (self : state) :
  warnings_of (events (handler data self))
  = if valid_utf8 data then [] else [EncodingErrorDetected].
Proof.
  rewrite handler_unfold. cbv zeta.
  pose proof (frame_loop_spec on_status_received
                (message_buffer self ++ chunk_text data)
                (subscriber self)) as H.
  cbv zeta in H.
  destruct (deliver _ (subscriber self)) as [[d s] r].
  destruct H as (He & _ & Hr & _).
  unfold except_Exception. cbn [raised]. rewrite Hr.
  assert (Hw : warnings_of (warning_of data)
               = if valid_utf8 data then [] else [EncodingErrorDetected]).
  { unfold warning_of. destruct (valid_utf8 data); reflexivity. }
  destruct r as [e|]; [destruct (isinstance_Exception e)|];
    cbn [events]; rewrite ?warnings_of_app, He, warnings_of_calls, Hw;
    cbn [warnings_of]; rewrite ?app_nil_r; reflexivity.
Qed.
End FramerInvariants.

Lemma chunk_without_line_feed_is_buffered_witness :
  let self := {| Framer.message_buffer := lit "ang";
                 Framer.subscriber := tt |} in
  let o := Framer._notification_handler failing_subscriber [x6c; x65] self in
  index Framer.NL (Framer.message_buffer self) = None
  /\ index Framer.NL (chunk_text [x6c; x65]) = None
  /\ Framer.message_buffer (Framer.final o) = lit "angle".
Proof.
  split; [reflexivity|]. split; [reflexivity|].
  apply (proj1 (proj2 (proj2
           (chunk_without_line_feed_is_buffered failing_subscriber
              [x6c; x65]
              {| Framer.message_buffer := lit "ang"; Framer.subscriber := tt |}
              eq_refl eq_refl)))).
Defined.

(** ** More on the command protocol *)

Lemma lstrip_map_ascii_lower (s : str) :
  lstrip (List.map ascii_lower s) = List.map ascii_lower (lstrip s).
Proof.
  induction s as [|c s IH]; simpl; [reflexivity|].
  rewrite isspace_ascii_lower.
  destruct (Py_UNICODE_ISSPACE c); [exact IH | reflexivity].
Qed.

Lemma strip_head (s : str) :
  nth_error (strip s) 0 = nth_error (lstrip s) 0.
Proof.
  rewrite <- strip_lstrip.
  destruct (lstrip s) as [|c t] eqn:Hs; [reflexivity|].
  destruct (strip_cons_nonspace c t (lstrip_head_nonspace s c t Hs))
    as [u ->].
  reflexivity.
Qed.

Section ValidateFacts.
Context {rt : Runtime}.

(** For a command of ASCII characters, [_validate_command] looks at the
    first character that is not white space only: the command is valid
    when that character, in lower case, is one of [a r z s p v h], and
    invalid when there is none. *)
Theorem validate_ascii_first_letter (command : str) :
  is_ascii command = true ->
  _validate_command command
  = Ok match lstrip command with
       | [] => false
       | c :: _ => command_letter (ascii_lower c)
       end.
Proof.
  intros Ha. unfold _validate_command, lower. rewrite Ha.
  destruct (lstrip command) as [|c t] eqn:Hl.
  - assert (Hs : strip command = [])
      by (unfold strip; rewrite Hl; reflexivity).
    rewrite Hs. simpl. rewrite orb_true_r. reflexivity.
  - pose proof (lstrip_head_nonspace command c t Hl) as Hc.
    destruct (strip command) as [|x u] eqn:Hs.
    + apply strip_nil_iff in Hs. apply lstrip_all_space in Hs.
      rewrite Hs in Hl. discriminate.
    + destruct command as [|d command]; [discriminate Hl|].
      cbn [List.length Nat.eqb orb].
      rewrite strip_head, lstrip_map_ascii_lower, Hl. reflexivity.
Qed.

End ValidateFacts.

Lemma validate_ascii_first_letter_witness :
  is_ascii (lit "  V9 ") = true
  /\ _validate_command (rt := plain_runtime) (lit "  V9 ") = Ok true.
Proof.
  split; [reflexivity|].
  apply (validate_ascii_first_letter (rt := plain_runtime) (lit "  V9 ")
                                     eq_refl).
Defined.

(** ** More on sending *)

Section SendFacts.
Context {rt : Runtime} {Link : Type}.
Variable write_gatt_char : Link -> bytes -> Link * option exn.
Import Client.

Local Abbreviation send := (send_command write_gatt_char).

(** [send_command] hands the transport at most one payload, and only for a
    command that [_validate_command] accepts on a connected client; the
    payload is the UTF-8 encoding of the command as given: not trimmed, not
    lower-cased, no line feed added. *)
Theorem send_command_wire (command : str) (self : state) :
  match writes_of (snd (send command self)) with
  | [] => True
  | [payload] =>
      is_connected self = true
      /\ client self <> None
      /\ _validate_command command = Ok true
      /\ utf8_encode command = Ok payload
  | _ :: _ :: _ => False
  end.
Proof.
  unfold send_command.
  destruct (is_connected self); [|exact I].
  destruct (client self) as [link|]; [|exact I].
  destruct (_validate_command command) as [[|]|e].
  - destruct (utf8_encode command) as [payload|e]; [|exact I].
    destruct (write_gatt_char link payload) as [link' [e|]].
    + destruct (isinstance_Exception e); simpl;
        repeat split; try reflexivity; discriminate.
    + simpl. repeat split; try reflexivity; discriminate.
  - exact I.
  - destruct (isinstance_Exception e); exact I.
Qed.

(** [send_command] never changes [is_connected] and never drops the
    client, also when the write fails; it answers [True] exactly when the
    write was made and returned: if it answers [True], the client is
    connected, the command is valid, and its encoding was written by a
    call that returned; and if one payload was written by a call that
    returned, the answer is [True].  The only exceptions that leave it
    are those that are not [Exception]s. *)
Theorem send_command_outcome (command : str) (self : state) :
  let '(r, self', tr) := send command self in
  is_connected self' = is_connected self
  /\ (client self' = None <-> client self = None)
  /\ (r = Ok true <->
      exists link payload,
        client self = Some link
        /\ writes_of tr = [payload]
        /\ snd (write_gatt_char link payload) = None)
  /\ match r with
     | Ok true =>
         exists link payload,
           is_connected self = true
           /\ client self = Some link
           /\ _validate_command command = Ok true
           /\ utf8_encode command = Ok payload
           /\ snd (write_gatt_char link payload) = None
           /\ writes_of tr = [payload]
     | Ok false =>
         writes_of tr = []
         \/ exists link payload e,
              client self = Some link
              /\ writes_of tr = [payload]
              /\ snd (write_gatt_char link payload) = Some e
              /\ isinstance_Exception e = true
     | Raise e => isinstance_Exception e = false
     end.
Proof.
  unfold send_command.
  destruct (is_connected self) eqn:Hc.
  2:{ split; [exact Hc|]. split; [reflexivity|]. split.
      - split; [discriminate|].
        intros (link & payload & _ & Hw & _). discriminate Hw.
      - left. reflexivity. }
  destruct (client self) as [link|] eqn:Hl.
  2:{ split; [exact Hc|]. split; [rewrite Hl; reflexivity|]. split.
      - split; [discriminate|].
        intros (link & payload & _ & Hw & _). discriminate Hw.
      - left. reflexivity. }
  destruct (_validate_command command) as [[|]|e] eqn:Hv.
  - destruct (utf8_encode command) as [payload|e] eqn:He.
    + destruct (write_gatt_char link payload) as [link' [e|]] eqn:Hw.
      * assert (Hno : ~ exists link0 payload0,
                   Some link = Some link0
                   /\ [payload] = [payload0]
                   /\ snd (write_gatt_char link0 payload0) = None).
        { intros (link0 & payload0 & Hl0 & Hw0 & Hr0).
          injection Hl0 as <-. injection Hw0 as <-.
          rewrite Hw in Hr0. discriminate Hr0. }
        destruct (isinstance_Exception e) eqn:Hi;
          cbn [is_connected client writes_of];
          (split; [reflexivity|]); (split; [split; discriminate|]).
        -- split.
           ++ split; [discriminate|]. intros H. destruct (Hno H).
           ++ right. exists link, payload, e. rewrite Hw. repeat split.
              exact Hi.
        -- split; [|exact Hi].
           split; [discriminate|]. intros H. destruct (Hno H).
      * cbn [is_connected client writes_of].
        split; [reflexivity|]. split; [split; discriminate|].
        split.
        -- split; [|reflexivity]. intros _.
           exists link, payload. rewrite Hw. repeat split.
        -- exists link, payload. rewrite Hw. repeat split.
    + rewrite Hc, Hl. split; [reflexivity|]. split; [reflexivity|]. split.
      * split; [discriminate|].
        intros (link0 & payload0 & _ & Hw0 & _). discriminate Hw0.
      * left. reflexivity.
  - rewrite Hc, Hl. split; [reflexivity|]. split; [reflexivity|]. split.
    + split; [discriminate|].
      intros (link0 & payload0 & _ & Hw0 & _). discriminate Hw0.
    + left. reflexivity.
  - destruct (isinstance_Exception e) eqn:Hi; rewrite Hc, Hl;
      (split; [reflexivity|]); (split; [reflexivity|]); split;
      try (split; [discriminate|];
           intros (link0 & payload0 & _ & Hw0 & _); discriminate Hw0).
    + left. reflexivity.
    + exact Hi.
Qed.
End SendFacts.

(** ** The codec: what is encoded decodes to itself *)

Lemma octet_byte_of_Z (z : Z) : 0 <= z < 256 -> octet (byte_of_Z z) = z.
Proof.
  intros Hz. unfold octet, byte_of_Z.
  destruct (Byte.of_N (Z.to_N z)) as [b|] eqn:E.
  - apply Byte.to_of_N in E. rewrite E. apply Z2N.id. lia.
  - apply Byte.of_N_None_iff in E. lia.
Qed.

Ltac dm_lia := Z.div_mod_to_equations; lia.

(** Shifts and masks of the codec, as quotients and remainders. *)
Ltac bits_to_arith :=
  change 63 with (Z.ones 6);
  rewrite ?Z.land_ones, ?Z.shiftr_div_pow2, ?Z.shiftl_mul_pow2 by lia;
  change (2 ^ 6) with 64; change (2 ^ 12) with 4096;
  change (2 ^ 18) with 262144.

Ltac settle_comparisons_dm :=
  repeat match goal with
         | |- context [?a <=? ?b] =>
             first [ replace (a <=? b) with true
                       by (symmetry; apply Z.leb_le; dm_lia)
                   | replace (a <=? b) with false
                       by (symmetry; apply Z.leb_gt; dm_lia) ]
         | |- context [?a <? ?b] =>
             first [ replace (a <? b) with true
                       by (symmetry; apply Z.ltb_lt; dm_lia)
                   | replace (a <? b) with false
                       by (symmetry; apply Z.ltb_ge; dm_lia) ]
         | |- context [?a =? ?b] =>
             first [ replace (a =? b) with true
                       by (symmetry; apply Z.eqb_eq; dm_lia)
                   | replace (a =? b) with false
                       by (symmetry; apply Z.eqb_neq; dm_lia) ]
         end.

Lemma utf8_char_1 (c : codepoint) (e : errors) (rest : bytes) :
  0 <= c < 128 ->
  utf8_encode_char c = Ok [byte_of_Z c]
  /\ utf8_decode e ([byte_of_Z c] ++ rest) = emit c (utf8_decode e rest).
Proof.
  intros Hc. split.
  - unfold utf8_encode_char. settle_comparisons. reflexivity.
  - cbn [app]. rewrite utf8_decode_cons. unfold utf8_step. cbv zeta.
    rewrite octet_byte_of_Z by lia. settle_comparisons. reflexivity.
Qed.

Lemma utf8_char_2 (c : codepoint) (e : errors) (rest : bytes) :
  128 <= c < 2048 ->
  exists bs,
    utf8_encode_char c = Ok bs
    /\ utf8_decode e (bs ++ rest) = emit c (utf8_decode e rest).
Proof.
  intros Hc. eexists. split.
  - unfold utf8_encode_char. settle_comparisons. reflexivity.
  - cbn [app]. rewrite utf8_decode_cons. unfold utf8_step. cbv zeta.
    bits_to_arith.
    rewrite !octet_byte_of_Z by dm_lia.
    unfold IS_CONTINUATION_BYTE. settle_comparisons_dm.
    cbn [negb andb Nat.pred skipn]. f_equal. bits_to_arith. dm_lia.
Qed.

Lemma utf8_char_3 (c : codepoint) (e : errors) (rest : bytes) :
  2048 <= c < 65536 -> ~ 55296 <= c <= 57343 ->
  exists bs,
    utf8_encode_char c = Ok bs
    /\ utf8_decode e (bs ++ rest) = emit c (utf8_decode e rest).
Proof.
  intros Hc Hs. eexists. split.
  - unfold utf8_encode_char. settle_comparisons.
    assert (Hn : (55296 <=? c) && (c <=? 57343) = false).
    { apply andb_false_iff.
      destruct (Z.leb_spec 55296 c); [right; apply Z.leb_gt; lia | now left]. }
    rewrite Hn. reflexivity.
  - cbn [app]. rewrite utf8_decode_cons. unfold utf8_step. cbv zeta.
    bits_to_arith.
    rewrite !octet_byte_of_Z by dm_lia.
    unfold IS_CONTINUATION_BYTE. settle_comparisons_dm.
    assert (H224 : (224 + c / 4096 =? 224) && ((128 + c / 64 mod 64) <? 160)
                   = false).
    { apply andb_false_iff.
      destruct (Z.eqb_spec (224 + c / 4096) 224);
        [right; apply Z.ltb_ge; dm_lia | now left]. }
    assert (H237 : (224 + c / 4096 =? 237) && (160 <=? (128 + c / 64 mod 64))
                   = false).
    { apply andb_false_iff.
      destruct (Z.eqb_spec (224 + c / 4096) 237);
        [right; apply Z.leb_gt; dm_lia | now left]. }
    rewrite H224, H237.
    cbn [negb andb Nat.pred skipn]. f_equal. bits_to_arith. dm_lia.
Qed.

Lemma utf8_char_4 (c : codepoint) (e : errors) (rest : bytes) :
  65536 <= c <= 1114111 ->
  exists bs,
    utf8_encode_char c = Ok bs
    /\ utf8_decode e (bs ++ rest) = emit c (utf8_decode e rest).
Proof.
  intros Hc. eexists. split.
  - unfold utf8_encode_char. settle_comparisons. reflexivity.
  - cbn [app]. rewrite utf8_decode_cons. unfold utf8_step. cbv zeta.
    bits_to_arith.
    rewrite !octet_byte_of_Z by dm_lia.
    unfold IS_CONTINUATION_BYTE. settle_comparisons_dm.
    assert (H240 : (240 + c / 262144 =? 240)
                   && ((128 + c / 4096 mod 64) <? 144) = false).
    { apply andb_false_iff.
      destruct (Z.eqb_spec (240 + c / 262144) 240);
        [right; apply Z.ltb_ge; dm_lia | now left]. }
    assert (H244 : (240 + c / 262144 =? 244)
                   && (144 <=? (128 + c / 4096 mod 64)) = false).
    { apply andb_false_iff.
      destruct (Z.eqb_spec (240 + c / 262144) 244);
        [right; apply Z.leb_gt; dm_lia | now left]. }
    rewrite H240, H244.
    cbn [negb andb Nat.pred skipn]. f_equal. bits_to_arith. dm_lia.
Qed.

Lemma utf8_char_round_trip (c : codepoint) (e : errors) (rest : bytes) :
  scalar_value c = true ->
  exists bs,
    utf8_encode_char c = Ok bs
    /\ utf8_decode e (bs ++ rest) = emit c (utf8_decode e rest).
Proof.
  unfold scalar_value. intros H.
  apply andb_prop in H. destruct H as [H Hs].
  apply andb_prop in H. destruct H as [H0 H1].
  apply Z.leb_le in H0. apply Z.leb_le in H1.
  apply negb_true_iff, andb_false_iff in Hs.
  assert (Hn : ~ 55296 <= c <= 57343).
  { intros [Ha Hb]. destruct Hs as [Hs|Hs]; apply Z.leb_gt in Hs; lia. }
  destruct (Z.lt_ge_cases c 128) as [Ha|Ha].
  - eexists. apply utf8_char_1. lia.
  - destruct (Z.lt_ge_cases c 2048) as [Hb|Hb].
    + apply utf8_char_2. lia.
    + destruct (Z.lt_ge_cases c 65536) as [Hd|Hd].
      * apply utf8_char_3; [lia | exact Hn].
      * apply utf8_char_4. lia.
Qed.

Lemma utf8_encode_char_scalar (c : codepoint) (bs : bytes) :
  0 <= c <= 1114111 -> utf8_encode_char c = Ok bs -> scalar_value c = true.
Proof.
  intros Hc. unfold utf8_encode_char, scalar_value.
  destruct (Z.ltb_spec c 128).
  - intros _. settle_comparisons. reflexivity.
  - destruct (Z.ltb_spec c 2048).
    + intros _. settle_comparisons. reflexivity.
    + destruct ((55296 <=? c) && (c <=? 57343)); [discriminate|].
      intros _. settle_comparisons. reflexivity.
Qed.

Lemma utf8_encode_scalar (s : str) (data : bytes) :
  in_range s = true -> utf8_encode s = Ok data ->
  forallb scalar_value s = true.
Proof.
  revert data. induction s as [|c s IH]; intros data; simpl; [reflexivity|].
  intros Hr. apply andb_prop in Hr. destruct Hr as [Hc Hr].
  apply andb_prop in Hc. destruct Hc as [H0 H1].
  apply Z.leb_le in H0. apply Z.leb_le in H1.
  destruct (utf8_encode_char c) as [bs|] eqn:Ec; [|discriminate].
  destruct (utf8_encode s) as [rest|] eqn:Es; [|discriminate].
  intros _. rewrite (utf8_encode_char_scalar c bs (conj H0 H1) Ec).
  exact (IH rest Hr eq_refl).
Qed.

Lemma utf8_round_trip_app (s : str) (tail : bytes) (t : str) (e : errors) :
  forallb scalar_value s = true ->
  utf8_decode e tail = Ok t ->
  exists data,
    utf8_encode s = Ok data /\ utf8_decode e (data ++ tail) = Ok (s ++ t).
Proof.
  intros Hs Ht. induction s as [|c s IH]; simpl.
  - exists []. split; [reflexivity | exact Ht].
  - simpl in Hs. apply andb_prop in Hs. destruct Hs as [Hc Hs].
    destruct (IH Hs) as (rest & Hr & Hd).
    destruct (utf8_char_round_trip c e (rest ++ tail) Hc) as (bs & Hb & Hdb).
    exists (bs ++ rest). rewrite Hb, Hr. split; [reflexivity|].
    rewrite <- app_assoc, Hdb, Hd. reflexivity.
Qed.

(** A string without surrogates encodes, and its encoding decodes strictly
    to the string: the command that [send_command] encodes and the text
    the notification handler decodes are the same characters. *)
Theorem utf8_round_trip (s : str) :
  forallb scalar_value s = true ->
  exists data,
    utf8_encode s = Ok data
    /\ utf8_decode Strict data = Ok s
    /\ valid_utf8 data = true
    /\ chunk_text data = s.
Proof.
  intros Hs.
  destruct (utf8_round_trip_app s [] [] Strict Hs eq_refl) as (data & He & Hd).
  rewrite !app_nil_r in Hd.
  exists data. split; [exact He|]. split; [exact Hd|].
  unfold valid_utf8, chunk_text.
  rewrite Hd, (utf8_decode_strict_any data s Ignore Hd). auto.
Qed.

Lemma utf8_round_trip_witness :
  forallb scalar_value [97; 176; 8364; 128512] = true
  /\ exists data,
       utf8_encode [97; 176; 8364; 128512] = Ok data
       /\ utf8_decode Strict data = Ok [97; 176; 8364; 128512].
Proof.
  split; [reflexivity|].
  destruct (utf8_round_trip [97; 176; 8364; 128512] eq_refl)
    as (data & He & Hd & _).
  exists data. split; assumption.
Defined.

(** ** A command that comes back *)

Lemma complete_lines_one_line (s : str) :
  index Framer.NL s = None -> complete_lines (s ++ [10]) = ([s], []).
Proof.
  unfold Framer.NL. induction s as [|c s IH]; simpl; [reflexivity|].
  destruct (c =? 10); [discriminate|].
  destruct (index 10 s); [discriminate|].
  intros _. rewrite IH by reflexivity. reflexivity.
Qed.

Section Echo.
Context {rt : Runtime} {Link : Type}.
Variable write_gatt_char : Link -> bytes -> Link * option exn.
Context {Sub : Type}.
Variable on_status_received : str -> Sub -> Sub * option exn.

Lemma send_command_true (command : str) (self : Client.state) :
  fst (fst (Client.send_command write_gatt_char command self)) = Ok true ->
  exists payload,
    _validate_command command = Ok true
    /\ utf8_encode command = Ok payload
    /\ writes_of (snd (Client.send_command write_gatt_char command self))
       = [payload].
Proof.
  unfold Client.send_command.
  destruct (Client.is_connected self); [|discriminate].
  destruct (Client.client self) as [link|]; [|discriminate].
  destruct (_validate_command command) as [[|]|e].
  - destruct (utf8_encode command) as [payload|e]; [|discriminate].
    destruct (write_gatt_char link payload) as [link' [e|]].
    + destruct (isinstance_Exception e); discriminate.
    + intros _. exists payload. auto.
  - discriminate.
  - destruct (isinstance_Exception e); discriminate.
Qed.

(** When [send_command] answers [True] for a command of one line, it has
    written one payload, and if the peer sends that payload back followed by
    a line feed, a client with an empty buffer and a subscriber that
    returns hands over exactly one message: the command, trimmed. *)
Theorem sent_command_echoed (command : str) (self : Client.state)
        (sub : Sub) :
  in_range command = true ->
  index Framer.NL command = None ->
  quiet on_status_received ->
  fst (fst (Client.send_command write_gatt_char command self)) = Ok true ->
  exists payload,
    writes_of (snd (Client.send_command write_gatt_char command self))
    = [payload]
    /\ messages_of
         (Framer.events
            (Framer._notification_handler on_status_received
               (payload ++ [x0a]) (fresh sub)))
       = [strip command].
Proof.
  intros Hrange Hnl Hq Hsent.
  destruct (send_command_true command self Hsent)
    as (payload & Hvalid & Henc & Hwr).
  exists payload. split; [exact Hwr|].
  destruct (handler_quiet on_status_received (payload ++ [x0a]) (fresh sub) Hq)
    as (_ & -> & _).
  pose proof (utf8_encode_scalar command payload Hrange Henc) as Hs.
  destruct (utf8_round_trip_app command [x0a] [10] Strict Hs)
    as (data & Hd & Hdec); [vm_compute; reflexivity|].
  rewrite Henc in Hd. injection Hd as <-.
  unfold chunk_text. rewrite (utf8_decode_strict_any _ _ Ignore Hdec).
  cbn [fresh Framer.message_buffer app].
  unfold framed. rewrite (complete_lines_one_line command Hnl).
  cbn [fst List.map filter].
  destruct (strip command) as [|c t] eqn:Hst; [|reflexivity].
  exfalso. unfold _validate_command in Hvalid. rewrite Hst in Hvalid.
  simpl in Hvalid. rewrite orb_true_r in Hvalid. discriminate.
Qed.
End Echo.

Lemma sent_command_echoed_witness :
  let self := {| Client.client := Some tt; Client.is_connected := true |} in
  let write := fun (l : unit) (_ : bytes) => (l, @None exn) in
  in_range (lit " a90 ") = true
  /\ index Framer.NL (lit " a90 ") = None
  /\ quiet silent_subscriber
  /\ fst (fst (Client.send_command (rt := plain_runtime) write
                 (lit " a90 ") self)) = Ok true
  /\ exists payload,
       writes_of (snd (Client.send_command (rt := plain_runtime) write
                         (lit " a90 ") self)) = [payload]
       /\ messages_of
            (Framer.events
               (Framer._notification_handler silent_subscriber
                  (payload ++ [x0a]) (fresh tt)))
          = [lit "a90"].
Proof.
  split; [reflexivity|]. split; [reflexivity|].
  split; [exact silent_subscriber_quiet|]. split; [reflexivity|].
  apply (sent_command_echoed (rt := plain_runtime)
           (fun (l : unit) (_ : bytes) => (l, @None exn))
           silent_subscriber (lit " a90 ")
           {| Client.client := Some tt; Client.is_connected := true |} tt
           eq_refl eq_refl silent_subscriber_quiet eq_refl).
Defined.

(** ** Scanning, connecting, disconnecting *)

Section SessionFacts.
Context {rt : Runtime} {Link : Type}.
Variable discover : result (list Session.BLEDevice).
Variable new_client : str -> Link.
Variable link_connect : Link -> Link * option Session.link_failure.
Variable start_notify : Link -> Link * option Session.link_failure.
Variable link_disconnect : Link -> Link * option exn.
Variable write_gatt_char : Link -> bytes -> Link * option exn.
Import Session.

Local Abbreviation find_target_device := (find_target_device (Link := Link) discover).
Local Abbreviation connect :=
  (connect discover new_client link_connect start_notify).
Local Abbreviation connect_to :=
  (connect_to new_client link_connect start_notify).
Local Abbreviation disconnect := (disconnect link_disconnect).
Local Abbreviation send := (Client.send_command write_gatt_char).

Lemma find_first {A} (f : A -> bool) (l : list A) :
  match find f l with
  | Some d =>
      exists pre post,
        l = pre ++ d :: post /\ f d = true /\ forallb (fun x => negb (f x)) pre = true
  | None => forallb (fun x => negb (f x)) l = true
  end.
Proof.
  induction l as [|x l IH]; simpl; [reflexivity|].
  destruct (f x) eqn:Hx.
  - exists [], l. auto.
  - destruct (find f l) as [d|].
    + destruct IH as (pre & post & -> & Hd & Hpre).
      exists (x :: pre), post. simpl. rewrite Hx, Hpre. auto.
    + simpl. exact IH.
Qed.

(** [find_target_device] selects the first discovered device whose name is
    [StepperMotor] or [Arduino], exactly as spelled, and stores it; when
    there is none it answers [False] and changes nothing.  It is the first
    entry that [scan_devices] marks [is_target] for the same scan. *)
Theorem find_target_is_first_target (devices : list BLEDevice)
        (self : state (Link := Link)) :
  discover = Ok devices ->
  scan_devices discover = Ok (List.map info_of devices)
  /\ match find_target_device self with
     | (Ok true, self') =>
         exists pre d post,
           devices = pre ++ d :: post
           /\ device self' = Some d
           /\ is_target (info_of d) = true
           /\ forallb (fun i => negb (is_target i)) (List.map info_of pre)
              = true
           /\ client self' = client self
           /\ is_connected self' = is_connected self
     | (Ok false, self') =>
         self' = self
         /\ forallb (fun i => negb (is_target i)) (List.map info_of devices)
            = true
     | (Raise _, _) => False
     end.
Proof.
  intros Hd. unfold Session.find_target_device, scan_devices. rewrite Hd.
  split; [reflexivity|].
  pose proof (find_first name_in_DEVICE_NAMES devices) as H.
  destruct (find name_in_DEVICE_NAMES devices) as [d|].
  - destruct H as (pre & post & -> & Ht & Hpre).
    exists pre, d, post. repeat split; auto.
    rewrite forallb_forall in *. intros i Hi.
    apply in_map_iff in Hi. destruct Hi as (x & <- & Hx).
    apply (Hpre x Hx).
  - split; [reflexivity|].
    rewrite forallb_forall in *. intros i Hi.
    apply in_map_iff in Hi. destruct Hi as (x & <- & Hx).
    apply (H x Hx).
Qed.

Lemma connect_to_outcome (d : BLEDevice) (self : state) :
  let '(r, self', calls) := connect_to d self in
  device self' = device self
  /\ client self' <> None
  /\ match r with
     | Connected =>
         is_connected self' = true
         /\ calls = [NewClient (address d); LinkConnect; StartNotify]
     | _ => is_connected self' = is_connected self
     end.
Proof.
  unfold Session.connect_to.
  destruct (link_connect (new_client (address d))) as [link1 [f|]].
  - simpl. repeat split; [discriminate|].
    destruct f as [|e]; simpl; [reflexivity|].
    destruct (isinstance_Exception e); reflexivity.
  - destruct (start_notify link1) as [link2 [f|]]; simpl.
    + repeat split; [discriminate|].
      destruct f as [|e]; simpl; [reflexivity|].
      destruct (isinstance_Exception e); reflexivity.
    + repeat split. discriminate.
Qed.

Lemma connect_spec (self : state) :
  let '(r, self', calls) := connect self in
  match r with
  | Connected =>
      is_connected self' = true
      /\ device self' <> None
      /\ client self' <> None
      /\ exists calls', calls = calls' ++ [LinkConnect; StartNotify]
  | _ => is_connected self' = is_connected self
  end.
Proof.
  unfold Session.connect.
  destruct (device self) as [d|] eqn:Hdev.
  - pose proof (connect_to_outcome d self) as H.
    destruct (connect_to d self) as [[r self'] calls].
    destruct H as (Hd & Hc & H).
    destruct r; try exact H.
    destruct H as [Hi ->]. rewrite Hd, Hdev.
    repeat split; try assumption; try discriminate.
    exists [NewClient (address d)]. reflexivity.
  - unfold Session.find_target_device.
    destruct discover as [devices|e]; [|reflexivity].
    destruct (find name_in_DEVICE_NAMES devices) as [d|]; [|reflexivity].
    cbn [device].
    pose proof (connect_to_outcome d
                  {| device := Some d; client := client self;
                     is_connected := is_connected self |}) as H.
    destruct (connect_to d _) as [[r self'] calls].
    destruct H as (Hd & Hc & H).
    destruct r; try exact H.
    destruct H as [Hi ->]. rewrite Hd.
    repeat split; try assumption; try discriminate.
    exists [Discover; NewClient (address d)]. reflexivity.
Qed.

(** [connect] answers [True] only with [is_connected] set, a device and a
    client stored, and after the notifications were enabled, which is the
    last call it makes; when it raises, [is_connected] is what it was. *)
Theorem connect_outcome (self : state) :
  let '(r, self', calls) := connect self in
  match r with
  | Connected =>
      is_connected self' = true
      /\ device self' <> None
      /\ client self' <> None
      /\ exists calls', calls = calls' ++ [LinkConnect; StartNotify]
  | _ => is_connected self' = is_connected self
  end.
Proof. exact (connect_spec self). Qed.

(** Without a stored device, when the scan finds no device of the two
    names, [connect] raises "device not found" after the scan alone: no
    client object is created and the state is unchanged. *)
Theorem connect_without_target (devices : list BLEDevice) (self : state) :
  device self = None ->
  discover = Ok devices ->
  forallb (fun d => negb (name_in_DEVICE_NAMES d)) devices = true ->
  connect self = (RaisedConnectionError DeviceNotFound, self, [Discover]).
Proof.
  intros Hdev Hd Hnone.
  unfold Session.connect, Session.find_target_device. rewrite Hdev, Hd.
  pose proof (find_first name_in_DEVICE_NAMES devices) as H.
  destruct (find name_in_DEVICE_NAMES devices) as [d|]; [|reflexivity].
  destruct H as (pre & post & -> & Ht & _).
  rewrite forallb_app in Hnone. apply andb_prop in Hnone.
  destruct Hnone as [_ Hn]. simpl in Hn. rewrite Ht in Hn. discriminate.
Qed.

(** With a stored device, [connect] does not scan again: it goes to the
    address of that device, whatever is in range now. *)
Theorem connect_reuses_device (d : BLEDevice) (self : state) :
  device self = Some d ->
  let calls := snd (connect self) in
  ~ In Discover calls
  /\ exists calls', calls = NewClient (address d) :: LinkConnect :: calls'.
Proof.
  intros Hdev. cbv zeta. unfold Session.connect. rewrite Hdev.
  unfold Session.connect_to.
  destruct (link_connect (new_client (address d))) as [link1 [f|]].
  - simpl. split; [intros [H|[H|[]]]; discriminate|].
    eexists. reflexivity.
  - destruct (start_notify link1) as [link2 [f|]]; simpl;
      (split; [intros [H|[H|[H|[]]]]; discriminate|]);
      eexists; reflexivity.
Qed.

(** On a client that is not connected, a [connect] that raises leaves the
    client object it created in place, and [send_command] still answers
    [False] without writing. *)
Theorem failed_connect_then_send (self : state) (command : str) :
  is_connected self = false ->
  fst (fst (connect self)) <> Connected ->
  let self' := snd (fst (connect self)) in
  send command (as_client self')
  = (Ok false, as_client self', [LogError DeviceNotConnected]).
Proof.
  intros Hoff Hfail. cbv zeta.
  pose proof (connect_spec self) as H.
  destruct (connect self) as [[r self'] calls]. simpl in *.
  assert (Hc : is_connected self' = false).
  { destruct r; [contradiction| |]; rewrite H; exact Hoff. }
  unfold Client.send_command, as_client. cbn [Client.is_connected].
  rewrite Hc. reflexivity.
Qed.

(** [disconnect] closes the link once when there is a client and
    [is_connected] holds, and then resets both, also when the link raises;
    otherwise it does nothing, so a second [disconnect] does nothing.  The
    device is kept. *)
Theorem disconnect_idempotent (self : state) :
  let '(r, self', calls) := disconnect self in
  disconnect self' = (None, self', [])
  /\ device self' = device self
  /\ (if is_connected self
      then match client self with
           | Some _ =>
               calls = [LinkDisconnect]
               /\ client self' = None /\ is_connected self' = false
           | None => calls = [] /\ self' = self
           end
      else calls = [] /\ self' = self)
  /\ match r with
     | Some e => isinstance_Exception e = false
     | None => True
     end.
Proof.
  unfold Session.disconnect.
  destruct (client self) as [link|] eqn:Hc;
    destruct (is_connected self) eqn:Hi.
  - destruct (link_disconnect link) as [link' [e|]]; simpl.
    + destruct (isinstance_Exception e) eqn:He; repeat split; auto.
    + repeat split; auto.
  - simpl. rewrite Hc, Hi. repeat split; auto.
  - simpl. rewrite Hc. repeat split; auto.
  - simpl. rewrite Hc. repeat split; auto.
Qed.

(** After [disconnect], whatever the state was and whatever the link did,
    [send_command] answers [False] and writes nothing. *)
Theorem disconnect_then_send (self : state) (command : str) :
  let self' := snd (fst (disconnect self)) in
  send command (as_client self')
  = (Ok false, as_client self', [LogError DeviceNotConnected]).
Proof.
  cbv zeta. unfold Session.disconnect.
  destruct (client self) as [link|] eqn:Hc;
    destruct (is_connected self) eqn:Hi.
  - destruct (link_disconnect link) as [link' [e|]]; reflexivity.
  - unfold Client.send_command, as_client. simpl. rewrite Hi. reflexivity.
  - unfold Client.send_command, as_client. simpl. rewrite Hc, Hi. reflexivity.
  - unfold Client.send_command, as_client. simpl. rewrite Hi. reflexivity.
Qed.
End SessionFacts.

Lemma find_target_is_first_target_witness :
  Ok three_devices = Ok three_devices
  /\ match Session.find_target_device (Ok three_devices) idle with
     | (Ok true, self') =>
         exists pre d post,
           three_devices = pre ++ d :: post
           /\ Session.device self' = Some d
           /\ Session.is_target (Session.info_of d) = true
           /\ forallb (fun i => negb (Session.is_target i))
                      (List.map Session.info_of pre) = true
           /\ Session.client self' = Session.client idle
           /\ Session.is_connected self' = Session.is_connected idle
     | (Ok false, self') =>
         self' = idle
         /\ forallb (fun i => negb (Session.is_target i))
                    (List.map Session.info_of three_devices) = true
     | (Raise _, _) => False
     end.
Proof.
  split; [reflexivity|].
  apply (proj2 (find_target_is_first_target (Ok three_devices)
                  three_devices idle eq_refl)).
Defined.

Lemma connect_without_target_witness :
  let devices := firstn 2 three_devices in
  Session.device idle = None
  /\ forallb (fun d => negb (Session.name_in_DEVICE_NAMES d)) devices = true
  /\ Session.connect (Ok devices) (fun _ => 0%nat) link_ok link_ok idle
     = (Session.RaisedConnectionError Session.DeviceNotFound, idle,
        [Session.Discover]).
Proof.
  split; [reflexivity|]. split; [reflexivity|].
  apply (connect_without_target (Ok (firstn 2 three_devices))
           (fun _ => 0%nat) link_ok link_ok (firstn 2 three_devices) idle
           eq_refl eq_refl eq_refl).
Defined.

Lemma connect_reuses_device_witness :
  let d := {| Session.name := Some (lit "Arduino");
              Session.address := lit "AA:03"; Session.rssi := -55 |} in
  let self := {| Session.device := Some d; Session.client := None;
                 Session.is_connected := false |} in
  Session.device self = Some d
  /\ ~ In Session.Discover
        (snd (Session.connect (Ok []) (fun _ => 0%nat) link_ok link_ok self)).
Proof.
  split; [reflexivity|].
  apply (proj1 (connect_reuses_device (Ok []) (fun _ => 0%nat) link_ok link_ok
                  {| Session.name := Some (lit "Arduino");
                     Session.address := lit "AA:03"; Session.rssi := -55 |}
                  {| Session.device :=
                       Some {| Session.name := Some (lit "Arduino");
                               Session.address := lit "AA:03";
                               Session.rssi := -55 |};
                     Session.client := None;
                     Session.is_connected := false |}
                  eq_refl)).
Defined.

Lemma failed_connect_then_send_witness :
  let self' :=
    snd (fst (Session.connect (Ok three_devices) (fun _ => 0%nat)
                link_times_out link_ok idle)) in
  Session.is_connected idle = false
  /\ fst (fst (Session.connect (Ok three_devices) (fun _ => 0%nat)
                 link_times_out link_ok idle))
     = Session.RaisedConnectionError Session.ConnectionTimeout
  /\ Session.client self' = Some 1%nat
  /\ fst (fst (Client.send_command (rt := plain_runtime)
                 (fun (l : nat) (_ : bytes) => (l, @None exn))
                 (lit "a90") (Session.as_client self')))
     = Ok false.
Proof.
  split; [reflexivity|]. split; [reflexivity|]. split; [reflexivity|].
  rewrite (failed_connect_then_send (rt := plain_runtime)
             (Ok three_devices) (fun _ => 0%nat) link_times_out link_ok
             (fun (l : nat) (_ : bytes) => (l, @None exn))
             idle (lit "a90") eq_refl).
  - reflexivity.
  - discriminate.
Defined.

(** ** Angles: what is printed is read back *)

Lemma starts_with_head (sep s : str) (c d : codepoint) :
  c <> d -> starts_with (c :: sep) (d :: s) = false.
Proof.
  intros H. simpl. destruct (Z.eqb_spec c d); [contradiction | reflexivity].
Qed.

Lemma contains_needs_head (c : codepoint) (sep s : str) :
  ~ In c s -> contains (c :: sep) s = false.
Proof.
  induction s as [|d s IH]; intros Hn; [reflexivity|].
  cbn [contains]. rewrite starts_with_head by (intros ->; apply Hn; left; reflexivity).
  apply IH. intros Hi. apply Hn. right. exact Hi.
Qed.

Lemma after_last_absent (c : codepoint) (s : str) :
  ~ In c s -> after_last c s = None.
Proof.
  induction s as [|d s IH]; intros Hn; [reflexivity|].
  simpl. rewrite IH by (intros Hi; apply Hn; right; exact Hi).
  destruct (Z.eqb_spec d c) as [E|_]; [|reflexivity].
  exfalso. apply Hn. left. exact E.
Qed.

Lemma text_before_sign (t : str) (rest : str) :
  ~ In 176 t -> text_before [176] (t ++ 176 :: rest) = t.
Proof.
  induction t as [|d t IH]; intros Hn.
  - reflexivity.
  - cbn [app text_before].
    rewrite starts_with_head by (intros E; apply Hn; left; auto).
    rewrite IH by (intros Hi; apply Hn; right; exact Hi). reflexivity.
Qed.

Lemma contains_sign (t rest : str) : contains [176] (t ++ 176 :: rest) = true.
Proof.
  induction t as [|d t IH]; [reflexivity|].
  cbn [app contains]. rewrite IH. apply orb_true_r.
Qed.

Lemma fixed_point_char_facts (c : codepoint) :
  fixed_point_char c = true ->
  c <> 100 /\ c <> 58 /\ c <> 176 /\ Py_UNICODE_ISSPACE c = false.
Proof.
  unfold fixed_point_char. intros H.
  assert (Hc : 48 <= c <= 57 \/ c = 46 \/ c = 45 \/ c = 105 \/ c = 110
               \/ c = 102 \/ c = 97).
  { repeat (apply orb_prop in H; destruct H as [H|H]);
      try (apply Z.eqb_eq in H; lia).
    apply andb_prop in H. destruct H as [Ha Hb].
    apply Z.leb_le in Ha. apply Z.leb_le in Hb. lia. }
  repeat split; try lia.
  unfold Py_UNICODE_ISSPACE. settle_comparisons. reflexivity.
Qed.

Lemma strip_no_space (t : str) :
  forallb (fun c => negb (Py_UNICODE_ISSPACE c)) t = true -> strip t = t.
Proof.
  intros H.
  assert (Hl : forall s, forallb (fun c => negb (Py_UNICODE_ISSPACE c)) s
                         = true -> lstrip s = s).
  { intros [|c s]; simpl; [reflexivity|].
    intros Hs. apply andb_prop in Hs. destruct Hs as [Hc _].
    apply negb_true_iff in Hc. rewrite Hc. reflexivity. }
  unfold strip, rstrip. rewrite (Hl t H).
  rewrite Hl; [apply rev_involutive|].
  rewrite forallb_forall in *. intros x Hx. apply H. apply in_rev. exact Hx.
Qed.

Section AngleRoundTrip.
Context {rt : Runtime}.
Variable float_format_1f : float -> str.

(** [extract_angle_from_message] reads the text that [format_angle] prints
    back as [float] of the number printed: when [format(angle, '.1f')]
    gives fixed-point characters only, the angle extracted from
    [format_angle(angle)] is [float] of that text. *)
Theorem format_angle_read_back (angle : float) :
  forallb fixed_point_char (float_format_1f angle) = true ->
  extract_angle_from_message (format_angle float_format_1f angle)
  = float_of_str (float_format_1f angle).
Proof.
  intros H. unfold format_angle.
  set (t := float_format_1f angle) in *.
  assert (Hall : forall c, In c t ->
                 c <> 100 /\ c <> 58 /\ c <> 176
                 /\ Py_UNICODE_ISSPACE c = false).
  { rewrite forallb_forall in H. intros c Hc.
    apply fixed_point_char_facts. apply H. exact Hc. }
  assert (Hd : ~ In 100 (t ++ [176])).
  { intros Hi. apply in_app_or in Hi. destruct Hi as [Hi|[Hi|[]]];
      [destruct (Hall _ Hi) as (Hx & _); congruence | discriminate]. }
  unfold extract_angle_from_message. cbn [extract_angle_loop].
  change deg with (100 :: lit "eg").
  pose proof (contains_needs_head 100 (lit "eg") _ Hd) as H1.
  pose proof (contains_sign t []) as H2.
  assert (H3 : text_before [176] (t ++ [176]) = t).
  { apply text_before_sign. intros Hi.
    destruct (Hall _ Hi) as (_ & _ & Hx & _). congruence. }
  assert (H4 : after_last 58 t = None).
  { apply after_last_absent. intros Hi.
    destruct (Hall _ Hi) as (_ & Hx & _). congruence. }
  assert (H5 : strip t = t).
  { apply strip_no_space. apply forallb_forall. intros c Hc.
    destruct (Hall _ Hc) as (_ & _ & _ & ->). reflexivity. }
  pose proof (angle_before_token [176] (t ++ [176])) as H6.
  unfold angle_token in H6. unfold degree_sign.
  unfold str, codepoint in *.
  rewrite H1, H2, H6 by discriminate. rewrite H3, H4, H5. reflexivity.
Qed.
End AngleRoundTrip.

Lemma format_angle_read_back_witness :
  let fmt := fun _ : float => lit "12.5" in
  let angle := PrimFloat.div (PrimFloat.of_uint63 25) (PrimFloat.of_uint63 2) in
  forallb fixed_point_char (fmt angle) = true
  /\ format_angle fmt angle = [49; 50; 46; 53; 176]
  /\ extract_angle_from_message (rt := plain_runtime)
       (format_angle fmt angle)
     = Some (PrimFloat.div (PrimFloat.of_uint63 125)
                           (PrimFloat.of_uint63 10)).
Proof.
  split; [reflexivity|]. split; [reflexivity|].
  rewrite (format_angle_read_back (rt := plain_runtime)
             (fun _ : float => lit "12.5")
             (PrimFloat.div (PrimFloat.of_uint63 25) (PrimFloat.of_uint63 2))
             eq_refl).
  vm_compute. reflexivity.
Defined.

(** ** The status handler of the command-line tool *)

Section StatusHandlerFacts.
Context {rt : Runtime} {Console : Type}.
Variable print : str -> Console -> Console * option exn.
Import Framer.

Local Abbreviation status_handler := (Monitor._status_handler print).

Lemma last_angle_cons (m : str) (ms : list str) (angle : float) :
  match last_angle (m :: ms) with
  | Some a => a
  | None => angle
  end
  = match last_angle ms with
    | Some a => a
    | None => match extract_angle_from_message m with
              | Some a => a
              | None => angle
              end
    end.
Proof. simpl. destruct (last_angle ms); reflexivity. Qed.

(** Delivering to [_status_handler] is delivering to [print], up to the
    first message for which it raises; the angle kept is that of the last
    message that carries one among those whose [print] returned. *)
Lemma deliver_status_handler (ms : list str) (st : Monitor.state) :
  let '(d, c, r) := deliver print ms (Monitor.console st) in
  deliver status_handler ms st
  = (d,
     {| Monitor.current_angle :=
          match last_angle (returned_calls d r) with
          | Some a => a
          | None => Monitor.current_angle st
          end;
        Monitor.console := c |},
     r).
Proof.
  revert st. induction ms as [|m ms IH]; intros st.
  - destruct st. reflexivity.
  - cbn [Py.str deliver]. unfold Monitor._status_handler at 1.
    destruct (print m (Monitor.console st)) as [c' [e|]] eqn:Ep.
    + reflexivity.
    + assert (Hstep :
        forall st',
          Monitor.console st' = c' ->
          Monitor.current_angle st'
          = match extract_angle_from_message m with
            | Some a => a
            | None => Monitor.current_angle st
            end ->
          (let '(d, s, r) := deliver status_handler ms st' in (m :: d, s, r))
          = (let '(d, c, r) := deliver print ms c' in
             (m :: d,
              {| Monitor.current_angle :=
                   match last_angle (returned_calls (m :: d) r) with
                   | Some a => a
                   | None => Monitor.current_angle st
                   end;
                 Monitor.console := c |},
              r))).
      { intros st' Hc Ha. specialize (IH st'). rewrite Hc in IH.
        destruct (deliver print ms c') as [[d c] r] eqn:Ed.
        rewrite IH, Ha. f_equal. f_equal. f_equal.
        destruct r as [e|]; cbn [returned_calls].
        - destruct (deliver_raised print ms c' d c e Ed)
            as (pre & x & post & sub_x & _ & -> & _).
          change (m :: pre ++ [x]) with ((m :: pre) ++ [x]).
          rewrite !removelast_last. symmetry. apply last_angle_cons.
        - symmetry. apply last_angle_cons. }
      destruct (extract_angle_from_message m) as [a|] eqn:Ea.
      * rewrite (Hstep {| Monitor.current_angle := a;
                          Monitor.console := c' |} eq_refl eq_refl).
        destruct (deliver print ms c') as [[d c] r]. reflexivity.
      * rewrite (Hstep {| Monitor.current_angle := Monitor.current_angle st;
                          Monitor.console := c' |} eq_refl eq_refl).
        destruct (deliver print ms c') as [[d c] r]. reflexivity.
Qed.

(** With [_status_handler] as the subscriber, a notification hands over
    the messages of buffer plus chunk up to the first one for which
    [print] raises, and [current_angle] becomes the angle of the last
    message that carries one among those whose [print] returned; it is
    unchanged when none does, and the angle of the message whose [print]
    raised is not stored.  When every [print] returns, the handler returns,
    every message is handed over and the remainder stays buffered; when one
    raises an [Exception], the messages after it are not handed over and
    the buffer is emptied; any other exception leaves the handler. *)
Theorem status_handler_tracks_last_angle
        (data : bytes) (self : state (Sub := Monitor.state)) :
  let o := _notification_handler status_handler data self in
  let text := message_buffer self ++ chunk_text data in
  let '(d, c, r) :=
    deliver print (framed text) (Monitor.console (subscriber self)) in
  messages_of (events o) = d
  /\ Monitor.console (subscriber (final o)) = c
  /\ Monitor.current_angle (subscriber (final o))
     = match last_angle (returned_calls d r) with
       | Some a => a
       | None => Monitor.current_angle (subscriber self)
       end
  /\ match r with
     | None =>
         raised o = None
         /\ d = framed text
         /\ message_buffer (final o) = remainder text
     | Some e =>
         (exists pre m post,
             framed text = pre ++ m :: post
             /\ d = pre ++ [m]
             /\ returned_calls d r = pre)
         /\ if isinstance_Exception e
            then raised o = None /\ message_buffer (final o) = []
            else raised o = Some e
     end.
Proof.
  cbv zeta.
  pose proof (handler_spec status_handler data self) as H. cbv zeta in H.
  pose proof (deliver_status_handler
                (framed (message_buffer self ++ chunk_text data))
                (subscriber self)) as Hd.
  destruct (deliver print _ (Monitor.console (subscriber self)))
    as [[d c] r] eqn:Ep.
  unfold str, codepoint in *. rewrite Hd in H.
  destruct H as (Hm & Hs & _ & Hcase).
  rewrite Hm, Hs. cbn [Monitor.console Monitor.current_angle].
  split; [reflexivity|]. split; [reflexivity|]. split; [reflexivity|].
  destruct r as [e|].
  - split.
    + destruct (deliver_raised print _ _ _ _ _ Ep)
        as (pre & m & post & sub_m & Hf & -> & _).
      exists pre, m, post. cbn [returned_calls].
      rewrite removelast_last. auto.
    + destruct (isinstance_Exception e).
      * destruct Hcase as (Hr & Hb & _). auto.
      * exact Hcase.
  - destruct Hcase as (Hr & Hb).
    rewrite (deliver_returned print _ _ _ _ Ep). auto.
Qed.
End StatusHandlerFacts.

Lemma status_handler_tracks_last_angle_witness :
  let data := [x31; x64; x65; x67; x0a; x62; x0a;
               x32; x64; x65; x67; x0a; x33; x64; x65; x67; x0a] in
  let self :=
    fresh {| Monitor.current_angle := PrimFloat.zero;
             Monitor.console := @nil str |} in
  let o :=
    Framer._notification_handler
      (Monitor._status_handler (rt := plain_runtime) print_two_lines)
      data self in
  framed (chunk_text data) = [lit "1deg"; lit "b"; lit "2deg"; lit "3deg"]
  /\ messages_of (Framer.events o) = [lit "1deg"; lit "b"; lit "2deg"]
  /\ Monitor.console (Framer.subscriber (Framer.final o))
     = [lit "1deg"; lit "b"]
  /\ Monitor.current_angle (Framer.subscriber (Framer.final o))
     = PrimFloat.of_uint63 1
  /\ Framer.message_buffer (Framer.final o) = [].
Proof.
  cbv zeta. split; [vm_compute; reflexivity|].
  pose proof (status_handler_tracks_last_angle (rt := plain_runtime)
                print_two_lines
                [x31; x64; x65; x67; x0a; x62; x0a;
                 x32; x64; x65; x67; x0a; x33; x64; x65; x67; x0a]
                (fresh {| Monitor.current_angle := PrimFloat.zero;
                          Monitor.console := @nil str |})) as H.
  cbv zeta in H.
  destruct (deliver print_two_lines _ _) as [[d c] r] eqn:Ed in H.
  vm_compute in Ed. injection Ed as <- <- <-.
  destruct H as (Hm & Hc & Ha & _ & _ & Hb).
  rewrite Hm, Hc, Ha, Hb. repeat split.
Defined.

(** ** The TCP server: the client list *)

Lemma str_eqb_refl (s : str) : str_eqb s s = true.
Proof.
  unfold str_eqb. rewrite Nat.eqb_refl. simpl.
  induction s as [|c s IH]; simpl; [reflexivity|].
  rewrite Z.eqb_refl. exact IH.
Qed.

Lemma address_eqb_refl (a : Server.address) : Server.address_eqb a a = true.
Proof.
  unfold Server.address_eqb. rewrite str_eqb_refl, Z.eqb_refl. reflexivity.
Qed.

Lemma filter_all {A} (f : A -> bool) (l : list A) :
  (forall x, In x l -> f x = true) -> filter f l = l.
Proof.
  induction l as [|x l IH]; intros H; simpl; [reflexivity|].
  rewrite (H x (or_introl eq_refl)), IH; [reflexivity|].
  intros y Hy. apply H. right. exact Hy.
Qed.

Section ClientList.
Variable sendall : Server.socket -> bytes -> option Server.OSError.
Import Server ServerOps.

(** For a connection from an address that no registered peer has: the
    clean-up of [handle_client] after the registration gives the list as
    it was, but a clean-up that runs before the registration (the thread
    is started first) removes nothing, and the entry of the closed
    connection stays in the list. *)
Theorem registration_and_clean_up (client_socket : socket)
        (client_address : address) (client_thread : thread) (self : state) :
  (forall en, In en (clients self) ->
              address_eqb (snd (fst en)) client_address = false) ->
  clients (fst (handle_client_finally client_socket client_address
                  (register client_socket client_address client_thread self)))
  = clients self
  /\ clients (register client_socket client_address client_thread
                (fst (handle_client_finally client_socket client_address
                        self)))
     = clients self ++ [(client_socket, client_address, client_thread)].
Proof.
  intros Hfresh.
  assert (Hkeep : filter (fun en => negb (address_eqb (snd (fst en))
                                                      client_address))
                         (clients self) = clients self).
  { apply filter_all. intros en Hen. rewrite (Hfresh en Hen). reflexivity. }
  split.
  - cbn [handle_client_finally register fst clients].
    rewrite filter_app. cbn [filter fst snd].
    rewrite address_eqb_refl. cbn [negb]. rewrite app_nil_r. exact Hkeep.
  - cbn [handle_client_finally register fst clients running].
    f_equal. exact Hkeep.
Qed.

Lemma receivers_of_send (message : str) (cs : list entry) (s : socket) :
  In s (receivers (flat_map (send_one sendall message) cs)) ->
  exists en, In en cs /\ fst (fst en) = s.
Proof.
  induction cs as [|[[sock addr] th] cs IH]; simpl; [intros []|].
  rewrite receivers_app. intros H. apply in_app_or in H.
  destruct H as [H|H].
  - exists (sock, addr, th). split; [left; reflexivity|].
    unfold send_one in H.
    destruct (utf8_encode (message ++ [10])) as [payload|e]; [|destruct H].
    destruct (sendall sock payload); simpl in H; [destruct H|].
    destruct H as [H|[]]. exact H.
  - destruct (IH H) as (en & Hen & Hs). exists en. split; [right|]; assumption.
Qed.

(** After the clean-up of [handle_client] for an address, a broadcast
    writes only to sockets of entries that were registered under another
    address, and the entries removed are exactly those of that address. *)
Theorem cleaned_up_peer_gets_nothing (client_socket : socket)
        (client_address : address) (message : str) (self : state)
        (s : socket) :
  let self' := fst (handle_client_finally client_socket client_address self) in
  In s (receivers (snd (send_to_all sendall message self'))) ->
  exists en,
    In en (clients self)
    /\ fst (fst en) = s
    /\ address_eqb (snd (fst en)) client_address = false.
Proof.
  cbv zeta. cbn [handle_client_finally fst].
  unfold send_to_all. cbn [clients].
  match goal with
  | |- context [filter ?f (clients self)] =>
      remember (filter f (clients self)) as kept eqn:Ek0
  end.
  assert (Hk : forall en, In en kept ->
                 In en (clients self)
                 /\ address_eqb (snd (fst en)) client_address = false).
  { intros en Hen. rewrite Ek0 in Hen.
    apply filter_In in Hen. destruct Hen as [Hi Hn].
    split; [exact Hi | apply negb_true_iff; exact Hn]. }
  clear Ek0.
  destruct kept as [|en0 kept'] eqn:Ek; [simpl; intros []|].
  cbn [snd clients]. intros H. apply receivers_of_send in H.
  destruct H as (en & Hen & Hs).
  destruct (Hk en Hen) as [Hi Hn]. exists en. auto.
Qed.

(** [stop] closes the socket of every registered client and empties the
    list; after it a broadcast finds no client and writes nothing, and a
    second [stop] closes no client socket again, only the listening
    socket. *)
Theorem stop_then_nothing (server_socket : option socket) (message : str)
        (self : state) :
  let '(self', acts) := stop server_socket self in
  running self' = false
  /\ (forall en, In en (clients self) -> In (Close (fst (fst en))) acts)
  /\ send_to_all sendall message self' = (self', [PrintNoClients])
  /\ stop server_socket self'
     = (self', match server_socket with
               | Some s => [Close s]
               | None => []
               end).
Proof.
  unfold stop. split; [reflexivity|]. split; [|split; reflexivity].
  intros en Hen. apply in_or_app. left.
  apply in_map_iff. exists en. auto.
Qed.
End ClientList.

Lemma registration_and_clean_up_witness :
  let addr := (lit "10.0.0.4", 50004) in
  (forall en, In en (Server.clients three_peers) ->
              Server.address_eqb (snd (fst en)) addr = false)
  /\ Server.clients
       (fst (Server.handle_client_finally 4%nat addr
               (ServerOps.register 4%nat addr 4%nat three_peers)))
     = Server.clients three_peers.
Proof.
  assert (H : forall en, In en (Server.clients three_peers) ->
                Server.address_eqb (snd (fst en)) (lit "10.0.0.4", 50004)
                = false).
  { intros en [<-|[<-|[<-|[]]]]; reflexivity. }
  split; [exact H|].
  apply (proj1 (registration_and_clean_up 4%nat (lit "10.0.0.4", 50004)
                  4%nat three_peers H)).
Defined.

Lemma cleaned_up_peer_gets_nothing_witness :
  let self' :=
    fst (Server.handle_client_finally 2%nat (lit "10.0.0.2", 50002)
           three_peers) in
  In 3%nat
     (Server.receivers (snd (Server.send_to_all all_succeed (lit "x") self')))
  /\ exists en,
       In en (Server.clients three_peers)
       /\ fst (fst en) = 3%nat
       /\ Server.address_eqb (snd (fst en)) (lit "10.0.0.2", 50002) = false.
Proof.
  assert (H : In 3%nat
                (Server.receivers
                   (snd (Server.send_to_all all_succeed (lit "x")
                           (fst (Server.handle_client_finally 2%nat
                                   (lit "10.0.0.2", 50002) three_peers))))))
    by (right; left; reflexivity).
  split; [exact H|].
  apply (cleaned_up_peer_gets_nothing all_succeed 2%nat
           (lit "10.0.0.2", 50002) (lit "x") three_peers 3%nat H).
Defined.

(** ** The TCP server: serving a client *)

Section Serving.
Import Server ServerOps.

Lemma serve_printable (client_address : address) (events : list recv_event) :
  printed_messages (fst (serve client_address events))
  = List.map (fun data => strip (chunk_text data)) (printable events).
Proof.
  induction events as [|ev events IH]; [reflexivity|].
  destruct ev as [|[|b data]|e]; try reflexivity.
  cbn [serve printable]. unfold valid_utf8, chunk_text at 1.
  destruct (utf8_decode Strict (b :: data)) as [text|] eqn:Hd; [|reflexivity].
  destruct (serve client_address events) as [printed failed].
  cbn [fst printed_messages List.map] in *.
  rewrite IH, (utf8_decode_strict_any _ _ Ignore Hd). reflexivity.
Qed.

Lemma printed_messages_app (a b : list served) :
  printed_messages (a ++ b) = printed_messages a ++ printed_messages b.
Proof.
  induction a as [|x a IH]; simpl; [reflexivity|].
  destruct x; simpl; rewrite ?IH; reflexivity.
Qed.

(** [handle_client] prints one message for each received chunk, trimmed,
    without putting chunks together, up to the first event that is not a
    non-empty chunk of valid UTF-8; whatever ended the loop, it then closes
    the socket and removes the entries of the address from the list. *)
Theorem handle_client_prints_each_chunk (client_socket : socket)
        (client_address : address) (events : list recv_event)
        (self : state) :
  let '(self', acts) :=
    handle_client client_socket client_address events self in
  printed_messages acts
  = List.map (fun data => strip (chunk_text data)) (printable events)
  /\ (exists pre, acts = pre ++ [CloseSocket client_socket;
                                PrintClosed client_address])
  /\ self' = fst (handle_client_finally client_socket client_address self).
Proof.
  unfold handle_client.
  pose proof (serve_printable client_address events) as H.
  destruct (serve client_address events) as [printed failed].
  cbn [fst] in H. split; [|split; [|reflexivity]].
  - rewrite !printed_messages_app, H.
    destruct failed; simpl; rewrite app_nil_r; reflexivity.
  - eexists. rewrite app_assoc. reflexivity.
Qed.

(** A chunk that is not valid UTF-8 ends the connection: the chunks before
    it are printed, then the error, and the socket is closed; what the peer
    sends afterwards is never read. *)
Theorem undecodable_chunk_ends_connection (client_socket : socket)
        (client_address : address) (good : list bytes) (bad : bytes)
        (later : list recv_event) (self : state) :
  printable (List.map Recv good) = good ->
  valid_utf8 bad = false ->
  bad <> [] ->
  snd (handle_client client_socket client_address
         (List.map Recv good ++ Recv bad :: later) self)
  = List.map (fun data => PrintFrom client_address (strip (chunk_text data)))
             good
    ++ [PrintHandlingError client_address;
        CloseSocket client_socket; PrintClosed client_address].
Proof.
  intros Hgood Hbad Hne. unfold handle_client.
  assert (Hs : serve client_address
                 (List.map Recv good ++ Recv bad :: later)
               = (List.map (fun data =>
                              PrintFrom client_address
                                        (strip (chunk_text data))) good,
                  true)).
  { clear self. induction good as [|g good IH].
    - cbn [List.map app serve].
      destruct bad as [|b bad]; [contradiction|].
      unfold valid_utf8 in Hbad.
      destruct (utf8_decode Strict (b :: bad)); [discriminate | reflexivity].
    - cbn [List.map app] in *.
      destruct g as [|b g]; [discriminate Hgood|].
      cbn [printable] in Hgood.
      destruct (valid_utf8 (b :: g)) eqn:Hv; [|discriminate Hgood].
      injection Hgood as Hgood. cbn [serve].
      unfold valid_utf8 in Hv. unfold chunk_text at 1.
      destruct (utf8_decode Strict (b :: g)) as [text|] eqn:Hd;
        [|discriminate].
      rewrite (utf8_decode_strict_any _ _ Ignore Hd), (IH Hgood).
      reflexivity. }
  rewrite Hs. cbn [snd]. reflexivity.
Qed.
End Serving.

Lemma undecodable_chunk_ends_connection_witness :
  let good := [[x68; x69; x0a]] in
  let bad := [xff] in
  ServerOps.printable (List.map ServerOps.Recv good) = good
  /\ valid_utf8 bad = false
  /\ bad <> []
  /\ snd (ServerOps.handle_client 2%nat (lit "10.0.0.2", 50002)
            (List.map ServerOps.Recv good
             ++ ServerOps.Recv bad :: [ServerOps.Recv [x6f; x6b]])
            three_peers)
     = [ServerOps.PrintFrom (lit "10.0.0.2", 50002) (lit "hi");
        ServerOps.PrintHandlingError (lit "10.0.0.2", 50002);
        ServerOps.CloseSocket 2%nat;
        ServerOps.PrintClosed (lit "10.0.0.2", 50002)].
Proof.
  split; [reflexivity|]. split; [reflexivity|]. split; [discriminate|].
  apply (undecodable_chunk_ends_connection 2%nat (lit "10.0.0.2", 50002)
           [[x68; x69; x0a]] [xff] [ServerOps.Recv [x6f; x6b]] three_peers
           eq_refl eq_refl).
  discriminate.
Defined.

(** ** The TCP server: the operator *)

Section LowerPrefix.
Context {rt : Runtime}.

Lemma do_lower_ascii_prefix (s : str) (i : nat) (k rest : str) :
  is_ascii k = true ->
  do_lower s i (k ++ rest)
  = List.map ascii_lower k ++ do_lower s (i + List.length k) rest.
Proof.
  revert i. induction k as [|c k IH]; intros i Hk.
  - simpl. rewrite Nat.add_0_r. reflexivity.
  - simpl in Hk. apply andb_prop in Hk. destruct Hk as [Hc Hk].
    apply Z.ltb_lt in Hc.
    cbn [app do_lower List.map List.length].
    rewrite (IH (S i) Hk). unfold lower_ucs4, ToLowerFull.
    destruct (Z.eqb_spec c 931); [lia|].
    destruct (Z.ltb_spec c 128); [|lia].
    cbn [app]. rewrite Nat.add_succ_r. reflexivity.
Qed.

(** Lower-casing keeps an ASCII prefix in its place. *)
Lemma lower_ascii_prefix (k rest : str) :
  is_ascii k = true ->
  exists t, lower (k ++ rest) = List.map ascii_lower k ++ t.
Proof.
  intros Hk. unfold lower. destruct (is_ascii (k ++ rest)).
  - rewrite map_app. eexists. reflexivity.
  - rewrite (do_lower_ascii_prefix _ _ _ _ Hk). eexists. reflexivity.
Qed.
End LowerPrefix.

Section OperatorFacts.
Context {rt : Runtime}.
Variable sendall : Server.socket -> bytes -> option Server.OSError.
Import Server ServerOps.

(** A line that, trimmed, starts with the word [send] in any case and a
    space (ASCII) makes the operator loop broadcast the rest of the trimmed
    line as it was typed, case and inner spaces kept, and leaves the state
    as it was. *)
Theorem operator_send_forwards_rest (line k rest : str) (self : state) :
  strip line = k ++ rest ->
  is_ascii k = true ->
  List.map ascii_lower k = lit "send " ->
  command_step sendall line self
  = (self, Broadcast rest (snd (send_to_all sendall rest self))).
Proof.
  intros Hline Hk Hsend.
  destruct (lower_ascii_prefix k rest Hk) as [t Ht].
  rewrite Hsend in Ht.
  assert (Hlen : skipn 5 (k ++ rest) = rest).
  { apply (f_equal (@List.length _)) in Hsend. rewrite length_map in Hsend.
    destruct k as [|c1 [|c2 [|c3 [|c4 [|c5 [|c6 k]]]]]]; try discriminate.
    reflexivity. }
  unfold command_step. rewrite Hline, Ht, Hlen.
  unfold str_eqb. cbn [lit List.map list_ascii_of_string app List.length
                       combine forallb fst snd Nat.eqb].
  cbn. rewrite ?andb_false_r. reflexivity.
Qed.
End OperatorFacts.

Lemma operator_send_forwards_rest_witness :
  let line := lit "  SeNd  Hello World " in
  strip line = lit "SeNd " ++ lit " Hello World"
  /\ is_ascii (lit "SeNd ") = true
  /\ List.map ascii_lower (lit "SeNd ") = lit "send "
  /\ ServerOps.command_step (rt := plain_runtime) all_succeed line three_peers
     = (three_peers,
        ServerOps.Broadcast (lit " Hello World")
          (snd (Server.send_to_all all_succeed (lit " Hello World")
                  three_peers))).
Proof.
  split; [reflexivity|]. split; [reflexivity|]. split; [reflexivity|].
  apply (operator_send_forwards_rest (rt := plain_runtime) all_succeed
           (lit "  SeNd  Hello World ") (lit "SeNd ") (lit " Hello World")
           three_peers eq_refl eq_refl eq_refl).
Defined.

(** ** The command-line tool *)

Section CLIFacts.
Context {rt : Runtime} {Link : Type}.
Variable write_gatt_char : Link -> bytes -> Link * option exn.
Variable float_format_1f : float -> str.
Variable int_of_str : str -> option Z.
Import CLI.

Local Abbreviation send := (Client.send_command write_gatt_char).
Local Abbreviation send_then := (send_then write_gatt_char).
Local Abbreviation motor_command :=
  (motor_command write_gatt_char float_format_1f int_of_str).
Local Abbreviation process_command :=
  (process_command write_gatt_char float_format_1f int_of_str).

Lemma send_valid_no_rejection (cmd : str) (client : Client.state) :
  _validate_command cmd = Ok true ->
  rejections_of (snd (send cmd client)) = [].
Proof.
  intros Hv. unfold Client.send_command. rewrite Hv.
  destruct (Client.is_connected client); [|reflexivity].
  destruct (Client.client client) as [link|]; [|reflexivity].
  destruct (utf8_encode cmd) as [payload|e]; [|reflexivity].
  destruct (write_gatt_char link payload) as [link' [e|]]; [|reflexivity].
  destruct (isinstance_Exception e); reflexivity.
Qed.

Lemma send_then_trace (cmd : str) (client : Client.state) (self : state)
      (on_success : state * list output) :
  snd (send_then cmd client self on_success) = snd (send cmd client).
Proof.
  unfold CLI.send_then.
  destruct (send cmd client) as [[[[|]|e] client'] tr]; reflexivity.
Qed.

Lemma send_then_letter (c : codepoint) (p : str) (client : Client.state)
      (self : state) (on_success : state * list output) :
  command_letter c = true ->
  rejections_of (snd (send_then (c :: p) client self on_success)) = [].
Proof.
  intros Hc. rewrite send_then_trace.
  apply send_valid_no_rejection. apply validate_letter_first. exact Hc.
Qed.

Lemma set_speed_letter (speed : Z) (cmd : str) :
  MotorCommands.set_speed speed = Ok cmd -> exists p, cmd = 118 :: p.
Proof.
  unfold MotorCommands.set_speed.
  destruct ((1 <=? speed) && (speed <=? 5)); [|discriminate].
  intros H. injection H as <-. eexists. reflexivity.
Qed.

Lemma motor_command_no_rejection (command : str) (client : Client.state)
      (self : state) :
  rejections_of (snd (motor_command command client self)) = [].
Proof.
  unfold CLI.motor_command.
  repeat match goal with
         | |- context [if ?c then _ else _] => destruct c
         | |- context [match float_of_str ?x with _ => _ end] =>
             destruct (float_of_str x)
         | |- context [match int_of_str ?x with _ => _ end] =>
             destruct (int_of_str x)
         end;
    try reflexivity;
    try (apply send_then_letter; reflexivity).
  destruct (MotorCommands.set_speed z) as [cmd|] eqn:Hs; [|reflexivity].
  destruct (set_speed_letter z cmd Hs) as [p ->].
  apply send_then_letter. reflexivity.
Qed.

(** The command-line tool never has a command rejected by the validation
    of [send_command]: whatever the user types, every text it hands to
    [send_command] starts with one of the seven letters. *)
Theorem cli_commands_pass_validation (line : str) (self : state) :
  rejections_of (snd (process_command line self)) = [].
Proof.
  unfold CLI.process_command.
  destruct (negb (nonempty_str line)); [reflexivity|].
  repeat match goal with
         | |- context [if list_contains ?a ?b then _ else _] =>
             destruct (list_contains a b)
         | |- context [if str_eqb ?a ?b then _ else _] =>
             destruct (str_eqb a b)
         end; try reflexivity.
  - destruct (ble_client self) as [client|]; [|reflexivity].
    destruct (negb (Client.is_connected client)); [reflexivity|].
    destruct (float_of_str (lower (strip line))); [|reflexivity].
    apply send_then_letter. reflexivity.
  - destruct (ble_client self) as [client|]; [|reflexivity].
    destruct (negb (Client.is_connected client)); [reflexivity|].
    apply motor_command_no_rejection.
Qed.

(** Without a client, or with one that is not connected, the tool calls
    [send_command] for no input at all: nothing is logged or written, and
    the state is unchanged. *)
Theorem cli_not_connected_sends_nothing (line : str) (self : state) :
  match ble_client self with
  | Some client => Client.is_connected client = false
  | None => True
  end ->
  snd (process_command line self) = []
  /\ snd (fst (fst (process_command line self))) = self.
Proof.
  intros Hoff. unfold CLI.process_command.
  destruct (negb (nonempty_str line)); [split; reflexivity|].
  repeat match goal with
         | |- context [if list_contains ?a ?b then _ else _] =>
             destruct (list_contains a b)
         | |- context [if str_eqb ?a ?b then _ else _] =>
             destruct (str_eqb a b)
         end; try (split; reflexivity);
    (destruct (ble_client self) as [client|]; [|split; reflexivity]);
    rewrite Hoff; split; reflexivity.
Qed.

Lemma str_eqb_other_head (c : codepoint) (s t : str) :
  match t with
  | d :: _ => c <> d
  | [] => True
  end ->
  str_eqb (c :: s) t = false.
Proof.
  destruct t as [|d t]; intros H; unfold str_eqb; simpl; [reflexivity|].
  destruct (Z.eqb_spec c d); [contradiction|]. apply andb_false_r.
Qed.

(** On a connected client, a speed command whose number [int] rejects or
    that is outside 1..5 prints the speed error and sends nothing. *)
Theorem cli_speed_out_of_range (line speed_str : str) (client : Client.state)
        (self : state) :
  ble_client self = Some client ->
  Client.is_connected client = true ->
  lower (strip line) = 118 :: speed_str ->
  speed_str <> [] ->
  match int_of_str speed_str with
  | Some speed => ~ 1 <= speed <= 5
  | None => True
  end ->
  process_command line self = (Ok true, self, [PrintSpeedError], []).
Proof.
  intros Hc Hon Hcmd Hne Hbad.
  assert (Hline : nonempty_str line = true).
  { destruct line; [|reflexivity].
    unfold lower in Hcmd. simpl in Hcmd. discriminate. }
  unfold CLI.process_command. rewrite Hline, Hcmd, Hc, Hon.
  unfold list_contains. cbn [existsb negb].
  rewrite !(str_eqb_other_head 118) by (cbv; intros HH; discriminate HH).
  cbn [orb].
  unfold CLI.motor_command.
  change (starts_with (lit "a") (118 :: speed_str)) with false.
  change (starts_with (lit "r") (118 :: speed_str)) with false.
  change (starts_with (lit "v") (118 :: speed_str)) with true.
  rewrite !(str_eqb_other_head 118) by (cbv; intros HH; discriminate HH).
  cbn [skipn].
  destruct speed_str as [|c speed_str]; [contradiction|]. cbn [nonempty_str].
  destruct (int_of_str (c :: speed_str)) as [speed|]; [|reflexivity].
  unfold MotorCommands.set_speed.
  destruct (Z.leb_spec 1 speed); destruct (Z.leb_spec speed 5);
    try reflexivity.
  exfalso. apply Hbad. lia.
Qed.
End CLIFacts.

Section CLIState.
Context {rt : Runtime} {Link : Type}.
Variable write_gatt_char : Link -> bytes -> Link * option exn.
Variable float_format_1f : float -> str.
Variable int_of_str : str -> option Z.
Import CLI.

Local Abbreviation send := (Client.send_command write_gatt_char).
Local Abbreviation send_then := (send_then write_gatt_char).
Local Abbreviation motor_command :=
  (motor_command write_gatt_char float_format_1f int_of_str).
Local Abbreviation process_command :=
  (process_command write_gatt_char float_format_1f int_of_str).

Lemma send_then_goes_on (cmd : str) (client : Client.state) (self : state)
      (on_success : state * list output) :
  result_of (send_then cmd client self on_success) <> Ok false.
Proof.
  unfold CLI.send_then, result_of.
  destruct (send cmd client) as [[[[|]|e] client'] tr]; discriminate.
Qed.

Lemma send_then_keeps_angle (cmd : str) (client : Client.state)
      (self : state) (out : list output) :
  current_angle (state_of (send_then cmd client self (self, out)))
  = current_angle self.
Proof.
  unfold CLI.send_then, state_of.
  destruct (send cmd client) as [[[[|]|e] client'] tr]; reflexivity.
Qed.

Ltac split_branches :=
  repeat match goal with
         | |- context [if list_contains ?a ?b then _ else _] =>
             destruct (list_contains a b) eqn:?
         | |- context [if str_eqb ?a ?b then _ else _] =>
             destruct (str_eqb a b) eqn:?
         | |- context [if starts_with ?a ?b then _ else _] =>
             destruct (starts_with a b) eqn:?
         | |- context [if nonempty_str ?a then _ else _] =>
             destruct (nonempty_str a) eqn:?
         | |- context [if negb ?a then _ else _] =>
             destruct a eqn:?; cbn [negb]
         | |- context [match float_of_str ?x with _ => _ end] =>
             destruct (float_of_str x) eqn:?
         | |- context [match int_of_str ?x with _ => _ end] =>
             destruct (int_of_str x) eqn:?
         | |- context [match MotorCommands.set_speed ?x with _ => _ end] =>
             destruct (MotorCommands.set_speed x) eqn:?
         | |- context [match ble_client ?x with _ => _ end] =>
             destruct (ble_client x) eqn:?
         end.

(** [process_command] ends the session exactly for a non-empty line that,
    trimmed and in lower case, is [quit], [q] or [exit], connected or not;
    every other input, also one that fails, lets the loop go on. *)
Theorem cli_quits_on_quit_only (line : str) (self : state) :
  result_of (process_command line self) = Ok false
  <-> nonempty_str line = true
      /\ list_contains (lower (strip line)) [lit "quit"; lit "q"; lit "exit"]
         = true.
Proof.
  unfold CLI.process_command, CLI.motor_command.
  split.
  - split_branches; unfold result_of, answer; cbn [fst];
      try discriminate; try (intros _; split; reflexivity);
      intros H; exfalso; revert H; apply send_then_goes_on.
  - intros [Hl Hq]. rewrite Hl, Hq. reflexivity.
Qed.

Lemma str_eqb_eq (s t : str) : str_eqb s t = true -> s = t.
Proof.
  unfold str_eqb. intros H. apply andb_prop in H. destruct H as [Hl Hc].
  apply Nat.eqb_eq in Hl. revert t Hl Hc.
  induction s as [|c s IH]; intros [|d t] Hl Hc; try discriminate.
  - reflexivity.
  - simpl in Hl, Hc. apply andb_prop in Hc. destruct Hc as [Hcd Hc].
    apply Z.eqb_eq in Hcd. subst d. f_equal. apply IH; [lia | exact Hc].
Qed.

(** [process_command] sets [current_angle] to zero exactly when the
    command, trimmed and in lower case, is [z], the client is connected,
    and [send_command] of the reset command answered [True]; it then
    answers [True] itself, the one payload written to the link is ["z"],
    and the reset is reported.  In every other case [current_angle] is
    left as it was. *)
Theorem cli_angle_only_reset (line : str) (self : state) :
  let e := process_command line self in
  let acknowledged :=
    match ble_client self with
    | Some client =>
        str_eqb (lower (strip line)) (lit "z")
        && Client.is_connected client
        && match fst (fst (send MotorCommands.reset_position client)) with
           | Ok true => true
           | _ => false
           end
    | None => false
    end in
  current_angle (state_of e)
  = (if acknowledged then PrimFloat.zero else current_angle self)
  /\ (if acknowledged
      then result_of e = Ok true
           /\ writes_of (snd e) = [[x7a]]
           /\ snd (fst e) = [PrintReset]
      else True).
Proof.
  cbv zeta. unfold CLI.process_command, CLI.motor_command.
  destruct (str_eqb (lower (strip line)) (lit "z")) eqn:Hz.
  - pose proof (str_eqb_eq _ _ Hz) as Hcmd.
    assert (Hline : nonempty_str line = true).
    { destruct line; [|reflexivity]. discriminate Hcmd. }
    rewrite Hline, Hcmd.
    repeat match goal with
           | |- context [list_contains (lit "z") ?l] =>
               change (list_contains (lit "z") l) with false
           | |- context [str_eqb (lit "z") (lit ?t)] =>
               change (str_eqb (lit "z") (lit t)) with false
           | |- context [starts_with (lit ?t) (lit "z")] =>
               change (starts_with (lit t) (lit "z")) with false
           end.
    cbn [negb andb]. cbv iota.
    destruct (ble_client self) as [client|]; [|split; [reflexivity|exact I]].
    destruct (Client.is_connected client); cbn [negb];
      [|split; [reflexivity|exact I]].
    unfold CLI.send_then, state_of, result_of.
    destruct (send MotorCommands.reset_position client)
      as [[r client'] tr] eqn:Hs.
    cbn [fst snd].
    destruct r as [[|]|e]; cbn [fst snd current_angle];
      try (split; [reflexivity|exact I]).
    split; [reflexivity|]. split; [reflexivity|]. split; [|reflexivity].
    assert (Ht : fst (fst (send MotorCommands.reset_position client))
                 = Ok true) by (rewrite Hs; reflexivity).
    destruct (send_command_true write_gatt_char _ _ Ht)
      as (payload & _ & He & Hw).
    rewrite Hs in Hw. cbn [snd] in Hw. rewrite Hw.
    vm_compute in He. injection He as <-. reflexivity.
  - assert (Hno :
      match ble_client self with
      | Some client =>
          false && Client.is_connected client
          && match fst (fst (send MotorCommands.reset_position client)) with
             | Ok true => true
             | _ => false
             end
      | None => false
      end = false).
    { destruct (ble_client self); reflexivity. }
    rewrite Hno. split; [|exact I].
    split_branches;
      try reflexivity;
      apply send_then_keeps_angle.
Qed.
End CLIState.

Lemma cli_angle_only_reset_witness :
  let client := {| Client.client := Some tt; Client.is_connected := true |} in
  let self := {| CLI.ble_client := Some client;
                 CLI.current_angle := PrimFloat.of_uint63 90 |} in
  let e := CLI.process_command (rt := plain_runtime)
             (fun (l : unit) (_ : bytes) => (l, @None exn))
             (fun _ => lit "0.0") plain_int (lit " Z ") self in
  CLI.current_angle (state_of e) = PrimFloat.zero
  /\ result_of e = Ok true
  /\ writes_of (snd e) = [[x7a]].
Proof.
  pose proof (cli_angle_only_reset (rt := plain_runtime)
                (fun (l : unit) (_ : bytes) => (l, @None exn))
                (fun _ => lit "0.0") plain_int (lit " Z ")
                {| CLI.ble_client :=
                     Some {| Client.client := Some tt;
                             Client.is_connected := true |};
                   CLI.current_angle := PrimFloat.of_uint63 90 |}) as H.
  cbv zeta in H.
  match type of H with
  | _ = (if ?b then _ else _) /\ _ =>
      replace b with true in H by (vm_compute; reflexivity)
  end.
  destruct H as (Ha & Hr & Hw & _).
  cbv zeta. split; [exact Ha|]. split; [exact Hr | exact Hw].
Defined.

Lemma cli_not_connected_sends_nothing_witness :
  let self := {| CLI.ble_client :=
                   Some {| Client.client := Some tt;
                           Client.is_connected := false |};
                 CLI.current_angle := PrimFloat.zero |} in
  match CLI.ble_client self with
  | Some client => Client.is_connected client = false
  | None => True
  end
  /\ snd (CLI.process_command (rt := plain_runtime)
            (fun (l : unit) (_ : bytes) => (l, @None exn))
            (fun _ => lit "0.0") plain_int (lit "a90") self) = [].
Proof.
  split; [reflexivity|].
  apply (proj1 (cli_not_connected_sends_nothing (rt := plain_runtime)
                  (fun (l : unit) (_ : bytes) => (l, @None exn))
                  (fun _ => lit "0.0") plain_int (lit "a90")
                  {| CLI.ble_client :=
                       Some {| Client.client := Some tt;
                               Client.is_connected := false |};
                     CLI.current_angle := PrimFloat.zero |}
                  eq_refl)).
Defined.

Lemma cli_speed_out_of_range_witness :
  let client := {| Client.client := Some tt; Client.is_connected := true |} in
  let self := {| CLI.ble_client := Some client;
                 CLI.current_angle := PrimFloat.zero |} in
  lower (rt := plain_runtime) (strip (lit " V9 ")) = 118 :: lit "9"
  /\ plain_int (lit "9") = Some 9
  /\ CLI.process_command (rt := plain_runtime)
       (fun (l : unit) (_ : bytes) => (l, @None exn))
       (fun _ => lit "0.0") plain_int (lit " V9 ") self
     = (Ok true, self, [CLI.PrintSpeedError], []).
Proof.
  split; [reflexivity|]. split; [reflexivity|].
  apply (cli_speed_out_of_range (rt := plain_runtime)
           (fun (l : unit) (_ : bytes) => (l, @None exn))
           (fun _ => lit "0.0") plain_int (lit " V9 ") (lit "9")
           {| Client.client := Some tt; Client.is_connected := true |}
           {| CLI.ble_client :=
                Some {| Client.client := Some tt;
                        Client.is_connected := true |};
              CLI.current_angle := PrimFloat.zero |}
           eq_refl eq_refl eq_refl).
  - discriminate.
  - simpl. lia.
Defined.

(** ** The scanner *)

Section ScannerFacts.
Import Scanner.

(** The bar of [_get_signal_strength_bar] always has five circles, between
    one and five of them lit, and a stronger signal never lights fewer. *)
Theorem signal_bar_monotone (rssi rssi' : Z) :
  List.length (_get_signal_strength_bar rssi) = 5%nat
  /\ (1 <= lit_circles (_get_signal_strength_bar rssi) <= 5)%nat
  /\ (rssi <= rssi' ->
      (lit_circles (_get_signal_strength_bar rssi)
       <= lit_circles (_get_signal_strength_bar rssi'))%nat).
Proof.
  unfold _get_signal_strength_bar.
  destruct (Z.leb_spec (-50) rssi); destruct (Z.leb_spec (-60) rssi);
    destruct (Z.leb_spec (-70) rssi); destruct (Z.leb_spec (-80) rssi);
    try lia;
    (split; [reflexivity|]); (split; [vm_compute; lia|]); intros Hle;
    destruct (Z.leb_spec (-50) rssi'); destruct (Z.leb_spec (-60) rssi');
    destruct (Z.leb_spec (-70) rssi'); destruct (Z.leb_spec (-80) rssi');
    try lia; vm_compute; lia.
Qed.

(** The quality label and the bar use the same bands: two signal strengths
    get the same label exactly when they get the same bar. *)
Theorem signal_label_matches_bar (rssi rssi' : Z) :
  _get_signal_quality rssi = _get_signal_quality rssi'
  <-> _get_signal_strength_bar rssi = _get_signal_strength_bar rssi'.
Proof.
  unfold _get_signal_quality, _get_signal_strength_bar.
  destruct (-50 <=? rssi); destruct (-60 <=? rssi); destruct (-70 <=? rssi);
    destruct (-80 <=? rssi);
    destruct (-50 <=? rssi'); destruct (-60 <=? rssi');
    destruct (-70 <=? rssi'); destruct (-80 <=? rssi');
    split; intros H; try reflexivity; discriminate H.
Qed.
End ScannerFacts.

Section ScannerAndConnect.
Context {Link : Type}.
Variable discover : result (list Session.BLEDevice).
Import Session Scanner.

Lemma filter_map_info (devices : list BLEDevice) :
  filter is_target (List.map info_of devices)
  = List.map info_of (filter name_in_DEVICE_NAMES devices).
Proof.
  induction devices as [|d devices IH]; simpl; [reflexivity|].
  destruct (name_in_DEVICE_NAMES d); simpl; rewrite IH; reflexivity.
Qed.

Lemma find_is_head_of_filter {A} (f : A -> bool) (l : list A) :
  find f l = match filter f l with
             | [] => None
             | x :: _ => Some x
             end.
Proof.
  induction l as [|x l IH]; simpl; [reflexivity|].
  destruct (f x); [reflexivity | exact IH].
Qed.

(** For one scan, the scanner lists target devices exactly when
    [find_target_device] finds one, the first listed target is the device
    that [find_target_device] stores for [connect], and the two lists of
    the scanner together hold every scanned device once. *)
Theorem first_listed_target_is_connect_target (devices : list BLEDevice)
        (self : state (Link := Link)) :
  discover = Ok devices ->
  let infos := List.map info_of devices in
  let '(targets, others) := _categorize_devices infos in
  scan_devices discover = Ok infos
  /\ (List.length targets + List.length others = List.length devices)%nat
  /\ match targets with
     | [] => find_target_device discover self = (Ok false, self)
     | i :: _ =>
         exists d,
           i = info_of d
           /\ fst (find_target_device discover self) = Ok true
           /\ device (snd (find_target_device discover self)) = Some d
     end.
Proof.
  intros Hd. cbv zeta. unfold _categorize_devices.
  split; [rewrite Hd; reflexivity|]. split.
  - rewrite <- (length_map info_of devices).
    induction (List.map info_of devices) as [|i l IH]; simpl; [reflexivity|].
    destruct (is_target i); simpl; lia.
  - rewrite filter_map_info. unfold find_target_device. rewrite Hd.
    rewrite find_is_head_of_filter.
    destruct (filter name_in_DEVICE_NAMES devices) as [|d ds]; simpl.
    + reflexivity.
    + exists d. auto.
Qed.
End ScannerAndConnect.

Lemma first_listed_target_is_connect_target_witness :
  Ok three_devices = Ok three_devices
  /\ exists d,
       {| Session.info_name := lit "Arduino";
          Session.info_address := lit "AA:03";
          Session.info_rssi := -55;
          Session.is_target := true |} = Session.info_of d
       /\ fst (Session.find_target_device (Ok three_devices) idle) = Ok true
       /\ Session.device
            (snd (Session.find_target_device (Ok three_devices) idle))
          = Some d.
Proof.
  split; [reflexivity|].
  apply (proj2 (proj2 (first_listed_target_is_connect_target
                         (Ok three_devices) three_devices idle eq_refl))).
Defined.

Lemma stop_then_nothing_witness :
  In peer2 (Server.clients three_peers)
  /\ In (Server.Close 2%nat)
        (snd (ServerOps.stop (Some 0%nat) three_peers)).
Proof.
  split; [right; left; reflexivity|].
  apply (proj1 (proj2 (stop_then_nothing all_succeed (Some 0%nat) (lit "x")
                         three_peers)) peer2).
  right. left. reflexivity.
Defined.

Lemma signal_bar_monotone_witness :
  -75 <= -55
  /\ (lit_circles (Scanner._get_signal_strength_bar (-75))
      <= lit_circles (Scanner._get_signal_strength_bar (-55)))%nat.
Proof.
  split; [lia|].
  apply (proj2 (proj2 (signal_bar_monotone (-75) (-55)))). lia.
Defined.
